(** * EnsembleLinear (spectralrl/module/net/basic.py)

    A shallow embedding of the ensemble linear layer: its constructor, its
    re-initialisation routine [reset_parameters], its [forward] transform and
    the generic initialiser [weight_init] that dispatches on the module type.

    Tensors are dense row-major arrays (a shape and a flat list of elements).
    Floating-point elements are modelled as real numbers, so sums are exact.
    The three [torch.einsum] equations used by the layer, the broadcasting
    addition and the in-place initialisers of [torch.nn.init] are modelled
    after the behaviour PyTorch documents for them.

    A size is an unbounded integer and a tensor of any size can be allocated:
    the 64-bit size arithmetic of PyTorch and the limits of memory are not
    modelled.  The statements about the sizes construction accepts are
    therefore made for sizes below [Spec.size_limit]. *)

From Stdlib Require Import List Arith Bool ZArith Lia Reals Lra.
Import ListNotations.

Set Implicit Arguments.

(** ** Exceptions and results *)

Inductive exn : Type :=
| RuntimeError
| TypeError
| ValueError
| ZeroDivisionError.

Inductive result (X : Type) : Type :=
| Ok (x : X)
| Raise (e : exn).

Arguments Ok {X} x.
Arguments Raise {X} e.

Definition is_ok {X : Type} (r : result X) : bool :=
  match r with Ok _ => true | Raise _ => false end.

(** ** Dense tensors *)

Module Tensor.

Section Dense.

Variable A : Type.
Variable dflt : A.

Record tensor : Type := Tensor { shape : list nat; data : list A }.

(** Number of elements of a shape. *)
Fixpoint numel (sh : list nat) : nat :=
  match sh with
  | [] => 1
  | n :: sh' => n * numel sh'
  end.

(** A tensor is well formed when its storage has one element per index. *)
Definition wf (t : tensor) : Prop := length (data t) = numel (shape t).

(** Row-major position of a multi-index. *)
Fixpoint offset (sh idx : list nat) : nat :=
  match sh, idx with
  | _ :: sh', i :: idx' => i * numel sh' + offset sh' idx'
  | _, _ => 0
  end.

(** [in_range sh idx]: [idx] has the rank of [sh] and every component is
    below the matching dimension. *)
Fixpoint in_range (sh idx : list nat) : bool :=
  match sh, idx with
  | [], [] => true
  | n :: sh', i :: idx' => (i <? n) && in_range sh' idx'
  | _, _ => false
  end.

(** All multi-indices of a shape, in row-major order. *)
Fixpoint indices (sh : list nat) : list (list nat) :=
  match sh with
  | [] => [[]]
  | n :: sh' => flat_map (fun i => map (cons i) (indices sh')) (seq 0 n)
  end.

(** The tensor of shape [sh] whose element at [idx] is [f idx]. *)
Definition tabulate (sh : list nat) (f : list nat -> A) : tensor :=
  Tensor sh (map f (indices sh)).

(** Element at a multi-index (meaningful for indices in range). *)
Definition item (t : tensor) (idx : list nat) : A :=
  nth (offset (shape t) idx) (data t) dflt.

(** [torch.full]: a tensor with every element equal to [v]. *)
Definition full (sh : list nat) (v : A) : tensor :=
  Tensor sh (repeat v (numel sh)).

(** [t[i]]: the sub-tensor at position [i] of the first axis. *)
Definition select_first (t : tensor) (i : nat) : tensor :=
  tabulate (tl (shape t)) (fun idx => item t (i :: idx)).

(** [t[..., i]]: the sub-tensor at position [i] of the last axis. *)
Definition select_last (t : tensor) (i : nat) : tensor :=
  tabulate (removelast (shape t)) (fun idx => item t (idx ++ [i])).

(** Writing through the view [t[..., i]]: every element of [t] whose last
    index is [i] is replaced by the matching element of [src]. *)
Definition set_last (t : tensor) (i : nat) (src : tensor) : tensor :=
  tabulate (shape t)
    (fun idx => if last idx 0 =? i then item src (removelast idx)
                else item t idx).

End Dense.

End Tensor.

(** ** The parts of Python and PyTorch the layer calls *)

Module Torch.

Import Tensor.
Local Open Scope R_scope.

(** Tensors of floating-point numbers. *)
Definition rtensor : Type := tensor R.

(** [t[idx]] *)
Definition at_ (t : rtensor) (idx : list nat) : R := item 0 t idx.

(** Sum of [f 0 .. f (n-1)]. *)
Definition rsum (n : nat) (f : nat -> R) : R :=
  fold_right (fun j acc => f j + acc) 0 (seq 0 n).

(** *** Python values passed as sizes *)

Inductive pyobj : Type :=
| PyInt (z : Z)
| PyFloat (r : R).

(** Argument parsing of a size list: every entry must be an [int]. *)
Fixpoint as_ints (args : list pyobj) : result (list Z) :=
  match args with
  | [] => Ok []
  | PyInt z :: rest =>
      match as_ints rest with
      | Ok zs => Ok (z :: zs)
      | Raise e => Raise e
      end
  | PyFloat _ :: _ => Raise TypeError
  end.

(** Allocation refuses a negative dimension. *)
Fixpoint as_shape (zs : list Z) : result (list nat) :=
  match zs with
  | [] => Ok []
  | z :: rest =>
      if (z <? 0)%Z then Raise RuntimeError
      else match as_shape rest with
           | Ok sh => Ok (Z.to_nat z :: sh)
           | Raise e => Raise e
           end
  end.

Definition size_arg (args : list pyobj) : result (list nat) :=
  match as_ints args with
  | Ok zs => as_shape zs
  | Raise e => Raise e
  end.

(** [torch.zeros(size)] *)
Definition zeros (size : list pyobj) : result rtensor :=
  match size_arg size with
  | Ok sh => Ok (full sh 0)
  | Raise e => Raise e
  end.

(** [torch.empty(size)]: the contents are unspecified; the layer overwrites
    them before reading them, and the model fills them with 0. *)
Definition empty (size : list pyobj) : result rtensor := zeros size.

(** [math.sqrt] on an [int] *)
Definition math_sqrt (z : Z) : result R :=
  if (z <? 0)%Z then Raise ValueError else Ok (sqrt (IZR z)).

(** Python's float division *)
Definition truediv (a b : R) : result R :=
  if Req_dec_T b 0 then Raise ZeroDivisionError else Ok (a / b).

(** *** Broadcasting *)

(** Two sizes carried by one subscript (or aligned by broadcasting) must be
    equal unless one of them is 1. *)
Definition broadcast_dim (a b : nat) : option nat :=
  if a =? 1 then Some b
  else if b =? 1 then Some a
  else if a =? b then Some a
  else None.

(** Position read in an operand of size [n] along an axis when the
    broadcast axis is at position [i]. *)
Definition bidx (n i : nat) : nat := if n =? 1 then 0 else i.

(** Shapes are aligned on their last axis; [broadcast_rev] works on the
    reversed shapes. *)
Fixpoint broadcast_rev (s1 s2 : list nat) : option (list nat) :=
  match s1, s2 with
  | [], _ => Some s2
  | _, [] => Some s1
  | a :: s1', b :: s2' =>
      match broadcast_dim a b, broadcast_rev s1' s2' with
      | Some d, Some r => Some (d :: r)
      | _, _ => None
      end
  end.

Definition broadcast_shapes (s1 s2 : list nat) : option (list nat) :=
  option_map (@rev nat) (broadcast_rev (rev s1) (rev s2)).

Fixpoint clamp (sh idx : list nat) : list nat :=
  match sh, idx with
  | n :: sh', i :: idx' => bidx n i :: clamp sh' idx'
  | _, _ => []
  end.

(** Index read in an operand of shape [sh] for the result index [idx]. *)
Definition bproject (sh idx : list nat) : list nat :=
  clamp sh (skipn (length idx - length sh) idx).

(** [a + b] on tensors *)
Definition add (a b : rtensor) : result rtensor :=
  match broadcast_shapes (shape a) (shape b) with
  | Some sh =>
      Ok (tabulate sh (fun idx =>
            at_ a (bproject (shape a) idx) + at_ b (bproject (shape b) idx)))
  | None => Raise RuntimeError
  end.

(** *** The three einsum equations *)

(** A shape with at least one axis, split into its leading axes and its
    last axis. *)
Definition split_last (sh : list nat) : option (list nat * nat) :=
  match sh with
  | [] => None
  | _ :: _ => Some (removelast sh, last sh 0%nat)
  end.

(** [torch.einsum('...j,jkb->...kb', x, w)] *)
Definition einsum_shared (x w : rtensor) : result rtensor :=
  match split_last (shape x), shape w with
  | Some (batch, ji), [jw; k; b] =>
      match broadcast_dim ji jw with
      | Some j =>
          Ok (tabulate (batch ++ [k; b]) (fun idx =>
                let n := length batch in
                let bi := firstn n idx in
                let ik := nth n idx 0%nat in
                let ib := nth (S n) idx 0%nat in
                rsum j (fun ij =>
                  at_ x (bi ++ [bidx ji ij]) * at_ w [bidx jw ij; ik; ib])))
      | None => Raise RuntimeError
      end
  | _, _ => Raise RuntimeError
  end.

(** [torch.einsum('b...j,jkb->...kb', x, w)] *)
Definition einsum_member (x w : rtensor) : result rtensor :=
  match shape x, shape w with
  | bx :: rest, [jw; k; bw] =>
      match split_last rest with
      | Some (batch, ji) =>
          match broadcast_dim bx bw, broadcast_dim ji jw with
          | Some b, Some j =>
              Ok (tabulate (batch ++ [k; b]) (fun idx =>
                    let n := length batch in
                    let bi := firstn n idx in
                    let ik := nth n idx 0%nat in
                    let ib := nth (S n) idx 0%nat in
                    rsum j (fun ij =>
                      at_ x (bidx bx ib :: bi ++ [bidx ji ij])
                      * at_ w [bidx jw ij; ik; bidx bw ib])))
          | _, _ => Raise RuntimeError
          end
      | None => Raise RuntimeError
      end
  | _, _ => Raise RuntimeError
  end.

(** [torch.einsum('...b->b...', t)] *)
Definition einsum_to_front (t : rtensor) : result rtensor :=
  match split_last (shape t) with
  | Some (rest, b) =>
      Ok (tabulate (b :: rest) (fun idx =>
            match idx with
            | ib :: r => at_ t (r ++ [ib])
            | [] => 0
            end))
  | None => Raise RuntimeError
  end.

(** *** The random generator and the in-place initialisers *)

(** The generator is a tape of draws and a position on it.  [unit_draw p]
    is the [p]-th uniform draw from [0, 1); [ortho_draw p rows cols] is the
    sign-corrected Q factor that the QR decomposition of the normal
    [rows x cols] sample taken at position [p] yields. *)
Record generator : Type := Generator {
  unit_draw : nat -> R;
  ortho_draw : nat -> nat -> nat -> rtensor;
  pos : nat
}.

Definition advance (g : generator) (n : nat) : generator :=
  Generator (unit_draw g) (ortho_draw g) (pos g + n).

(** [nn.init.uniform_(t, a, b)] *)
Definition uniform_ (t : rtensor) (a b : R) (g : generator)
  : result rtensor * generator :=
  if Rlt_dec b a then (Raise RuntimeError, g)
  else
    let n := numel (shape t) in
    (Ok (Tensor (shape t)
           (map (fun i => unit_draw g (pos g + i) * (b - a) + a) (seq 0 n))),
     advance g n).

(** [nn.init.orthogonal_(t, gain)] *)
Definition orthogonal_ (t : rtensor) (gain : R) (g : generator)
  : result rtensor * generator :=
  match shape t with
  | rows :: _ :: _ =>
      let n := numel (shape t) in
      if n =? 0 then (Ok t, g)
      else
        let cols := (n / rows)%nat in
        let q := ortho_draw g (pos g) rows cols in
        (Ok (tabulate (shape t) (fun idx =>
               nth (offset (shape t) idx) (data q) 0 * gain)),
         advance g n)
  | _ => (Raise ValueError, g)
  end.

(** [t.fill_(v)] *)
Definition fill_ (t : rtensor) (v : R) : rtensor := full (shape t) v.

End Torch.

(** ** Methods: state and exceptions

    A method runs on the object it is called on and on the global random
    generator; it returns a value or raises, and leaves both in a new state. *)

Definition Method (O X : Type) : Type :=
  O * Torch.generator -> result X * (O * Torch.generator).

Definition ret {O X : Type} (x : X) : Method O X := fun s => (Ok x, s).

Definition bind {O X Y : Type} (m : Method O X) (k : X -> Method O Y)
  : Method O Y :=
  fun s =>
    match m s with
    | (Ok x, s') => k x s'
    | (Raise e, s') => (Raise e, s')
    end.

(** The object itself. *)
Definition this {O : Type} : Method O O := fun s => (Ok (fst s), s).

(** Replace the object by an updated one. *)
Definition update {O : Type} (f : O -> O) : Method O unit :=
  fun s => (Ok tt, (f (fst s), snd s)).

(** A computation that touches neither the object nor the generator. *)
Definition lift {O X : Type} (r : result X) : Method O X := fun s => (r, s).

(** A computation on the generator only. *)
Definition draw {O X : Type}
  (f : Torch.generator -> result X * Torch.generator) : Method O X :=
  fun s => let (r, g') := f (snd s) in (r, (fst s, g')).

Declare Scope method_scope.
Delimit Scope method_scope with method.
Notation "x <- m ;; k" := (bind m (fun x => k))
  (at level 61, m at next level, right associativity) : method_scope.
Notation "m ;; k" := (bind m (fun _ => k))
  (at level 61, right associativity) : method_scope.

(** ** The layer *)

Module Layer.

Import Tensor Torch.
Local Open Scope R_scope.

Record EnsembleLinear : Type := mkEnsembleLinear {
  in_features : Z;
  out_features : Z;
  ensemble_size : Z;
  share_input : bool;
  add_bias : bool;
  weight : rtensor;
  bias : rtensor
}.

Definition set_weight (w : rtensor) (l : EnsembleLinear) : EnsembleLinear :=
  mkEnsembleLinear (in_features l) (out_features l) (ensemble_size l)
    (share_input l) (add_bias l) w (bias l).

Definition set_bias (b : rtensor) (l : EnsembleLinear) : EnsembleLinear :=
  mkEnsembleLinear (in_features l) (out_features l) (ensemble_size l)
    (share_input l) (add_bias l) (weight l) b.

Local Open Scope method_scope.

(** [EnsembleLinear.reset_parameters] *)
Definition reset_parameters : Method EnsembleLinear unit :=
  self <- this ;;
  root <- lift (math_sqrt (in_features self)) ;;
  std <- lift (truediv 1 root) ;;
  w <- draw (uniform_ (weight self) (- std) std) ;;
  update (set_weight w) ;;
  if add_bias self then
    b <- draw (uniform_ (bias self) (- std) std) ;;
    update (set_bias b)
  else ret tt.

(** [EnsembleLinear.__init__]: [torch.empty] rejects a size that is not an
    [int] before anything is allocated, so the fields of a constructed layer
    hold integers. *)
Definition init (in_features out_features ensemble_size : pyobj)
  (share_input bias : bool) (g : generator)
  : result EnsembleLinear * generator :=
  match empty [in_features; out_features; ensemble_size] with
  | Raise e => (Raise e, g)
  | Ok w =>
      match (if bias then empty [out_features; ensemble_size]
             else zeros [out_features; ensemble_size]) with
      | Raise e => (Raise e, g)
      | Ok b =>
          match in_features, out_features, ensemble_size with
          | PyInt i, PyInt o, PyInt e =>
              let self := mkEnsembleLinear i o e share_input bias w b in
              match reset_parameters (self, g) with
              | (Ok _, (self', g')) => (Ok self', g')
              | (Raise e, (_, g')) => (Raise e, g')
              end
          | _, _, _ => (Raise TypeError, g)
          end
      end
  end.

(** [EnsembleLinear.forward] *)
Definition forward (input : rtensor) : Method EnsembleLinear rtensor :=
  self <- this ;;
  res <- (if share_input self then
            r <- lift (einsum_shared input (weight self)) ;;
            lift (add r (bias self))
          else
            r <- lift (einsum_member input (weight self)) ;;
            lift (add r (bias self))) ;;
  lift (einsum_to_front res).

(** *** The generic initialiser *)

(** [nn.Linear]: a weight of shape [out_features, in_features] and an
    optional bias. *)
Record Linear : Type := mkLinear {
  lin_weight : rtensor;
  lin_bias : option rtensor
}.

Inductive module : Type :=
| LinearModule (m : Linear)
| EnsembleModule (m : EnsembleLinear)
| OtherModule.

(** The branch for [nn.Linear]. *)
Definition init_linear (gain : R) : Method Linear unit :=
  m <- this ;;
  w <- draw (orthogonal_ (lin_weight m) gain) ;;
  update (fun m => mkLinear w (lin_bias m)) ;;
  match lin_bias m with
  | Some b => update (fun m => mkLinear (lin_weight m) (Some (fill_ b 0)))
  | None => ret tt
  end.

(** The loop [for i in range(m.ensemble_size)] over the views
    [m.weight.data[..., i]]. *)
Fixpoint init_members (members : list nat) (gain : R)
  : Method EnsembleLinear unit :=
  match members with
  | [] => ret tt
  | i :: rest =>
      m <- this ;;
      s <- draw (orthogonal_ (select_last 0 (weight m) i) gain) ;;
      update (set_weight (set_last 0 (weight m) i s)) ;;
      init_members rest gain
  end.

(** The branch for [EnsembleLinear]; its bias, parameter or buffer, always
    has a [data] attribute. *)
Definition init_ensemble (gain : R) : Method EnsembleLinear unit :=
  m <- this ;;
  init_members (seq 0 (Z.to_nat (ensemble_size m))) gain ;;
  m <- this ;;
  update (set_bias (fill_ (bias m) 0)).

(** Run a method of a component on the matching variant of a module. *)
Definition on_variant {O : Type} (wrap : O -> module) (o : O)
  (body : Method O unit) : Method module unit :=
  fun s =>
    match body (o, snd s) with
    | (r, (o', g')) => (r, (wrap o', g'))
    end.

(** [weight_init(m, gain)] *)
Definition weight_init (gain : R) : Method module unit :=
  m <- this ;;
  match m with
  | LinearModule l => on_variant LinearModule l (init_linear gain)
  | EnsembleModule l => on_variant EnsembleModule l (init_ensemble gain)
  | OtherModule => ret tt
  end.

End Layer.

(** ** Notions used to state the properties *)

Module Spec.

Import Tensor Torch Layer.
Local Open Scope R_scope.

(** A Python [int] used as a dimension. *)
Definition dim (z : Z) : nat := Z.to_nat z.

(** The shape invariant of a constructed layer: [weight] has shape
    [in_features, out_features, E] and [bias] has shape [out_features, E]. *)
Definition layer_inv (l : EnsembleLinear) : Prop :=
  (0 <= in_features l)%Z /\ (0 <= out_features l)%Z /\
  (0 <= ensemble_size l)%Z /\
  shape (weight l)
  = [dim (in_features l); dim (out_features l); dim (ensemble_size l)] /\
  wf (weight l) /\
  shape (bias l) = [dim (out_features l); dim (ensemble_size l)] /\
  wf (bias l).

(** A size accepted by the specification: a positive [int]. *)
Definition positive_int (a : pyobj) : bool :=
  match a with
  | PyInt z => (0 <? z)%Z
  | PyFloat _ => false
  end.

(** The sizes the constructor accepts. *)
Definition accepted_sizes (i o e : pyobj) : bool :=
  match i, o, e with
  | PyInt zi, PyInt zo, PyInt ze => (0 <? zi)%Z && (0 <=? zo)%Z && (0 <=? ze)%Z
  | _, _, _ => false
  end.

(** The range of sizes for which acceptance by the constructor is stated.
    PyTorch holds a size in a signed 64-bit integer and multiplies the sizes
    of a tensor in 64 bits; below [size_limit] neither a size nor a product
    of two sizes leaves that range. *)
Definition size_limit : Z := 2 ^ 31.

(** [v] lies in [[-std, std]]. *)
Definition within (std v : R) : Prop := - std <= v <= std.

(** The bound of the fan-in-scaled uniform scheme. *)
Definition fan_in_bound (l : EnsembleLinear) : R :=
  / sqrt (IZR (in_features l)).

Definition bounded (l : EnsembleLinear) : Prop :=
  Forall (within (fan_in_bound l)) (data (weight l)) /\
  (add_bias l = true -> Forall (within (fan_in_bound l)) (data (bias l))).

(** What a method may change: the contents of [weight], and the contents of
    [bias] when it is trainable. *)
Definition frame (l l' : EnsembleLinear) : Prop :=
  in_features l' = in_features l /\ out_features l' = out_features l /\
  ensemble_size l' = ensemble_size l /\ share_input l' = share_input l /\
  add_bias l' = add_bias l /\
  shape (weight l') = shape (weight l) /\
  shape (bias l') = shape (bias l) /\
  (add_bias l = false -> bias l' = bias l).

(** Every uniform draw of the generator lies in [[0, 1)]. *)
Definition unit_draws (g : generator) : Prop :=
  forall p, 0 <= unit_draw g p < 1.

Definition delta (a b : nat) : R := if a =? b then 1 else 0.

(** A [rows x cols] matrix whose columns (or rows, when there are fewer rows
    than columns) are orthonormal. *)
Definition semi_orthogonal (rows cols : nat) (q : rtensor) : Prop :=
  shape q = [rows; cols] /\ wf q /\
  if rows <? cols then
    forall a b, (a < rows)%nat -> (b < rows)%nat ->
      rsum cols (fun k => at_ q [a; k] * at_ q [b; k]) = delta a b
  else
    forall a b, (a < cols)%nat -> (b < cols)%nat ->
      rsum rows (fun j => at_ q [j; a] * at_ q [j; b]) = delta a b.

(** Every matrix the generator hands to [orthogonal_] is (semi-)orthogonal. *)
Definition ortho_draws (g : generator) : Prop :=
  forall p rows cols, semi_orthogonal rows cols (ortho_draw g p rows cols).

(** A single-member linear layer, [x @ W + b], with [W] of shape
    [in_features, out_features] and [b] of shape [out_features]. *)
Definition single_linear (x W b : rtensor) : rtensor :=
  let batch := removelast (shape x) in
  let j := last (shape x) 0%nat in
  let k := nth 1 (shape W) 0%nat in
  tabulate (batch ++ [k]) (fun idx =>
    let bi := removelast idx in
    let ik := last idx 0%nat in
    rsum j (fun ij => at_ x (bi ++ [ij]) * at_ W [ij; ik]) + at_ b [ik]).

(** Two sizes that broadcasting cannot reconcile: they differ and neither
    is 1. *)
Definition incompatible (a b : nat) : Prop :=
  a <> b /\ a <> 1%nat /\ b <> 1%nat.

(** The element of [bias] that the broadcasting addition adds at the output
    position [idx] (the ensemble axis of the output comes first). *)
Definition bias_term (l : EnsembleLinear) (idx : list nat) : R :=
  at_ (bias l) (bproject (shape (bias l)) (tl idx ++ [hd 0%nat idx])).

(** Calls made on a layer after its construction. *)
Inductive call : Type :=
| Reset
| Transform (input : rtensor).

Definition run_call (c : call) (s : EnsembleLinear * generator)
  : EnsembleLinear * generator :=
  match c with
  | Reset => snd (reset_parameters s)
  | Transform x => snd (forward x s)
  end.

Definition run_calls (cs : list call) (s : EnsembleLinear * generator)
  : EnsembleLinear * generator :=
  fold_left (fun s c => run_call c s) cs s.

End Spec.

(** ** Concrete layers, inputs and generators *)

Module Examples.

Import Tensor Torch Layer Spec.
Local Open Scope R_scope.

(** A generator whose uniform draws are all 1/2 and whose orthogonal draws
    are the rectangular identity. *)
Definition gen0 : generator :=
  Generator (fun _ => 1 / 2)
    (fun _ rows cols =>
       tabulate [rows; cols]
         (fun idx => delta (nth 0 idx 0%nat) (nth 1 idx 0%nat)))
    0.

(** [in_features = 3], [out_features = 1], [E = 2]; member 0 picks the first
    input feature and member 1 the second. *)
Definition layer_3_1_2 (share : bool) : EnsembleLinear :=
  mkEnsembleLinear 3 1 2 share true
    (Tensor [3; 1; 2]%nat [1; 0; 0; 1; 0; 0])
    (Tensor [1; 2]%nat [0; 0]).

(** One row [[1, 2, 3]]. *)
Definition x_1_3 : rtensor := Tensor [1; 3]%nat [1; 2; 3].

(** One row per member: [[[1, 2, 3]], [[4, 5, 6]]]. *)
Definition x_2_1_3 : rtensor := Tensor [2; 1; 3]%nat [1; 2; 3; 4; 5; 6].

(** The same rows with the row of member 0 changed. *)
Definition x_2_1_3' : rtensor := Tensor [2; 1; 3]%nat [7; 8; 9; 4; 5; 6].

(** Two rows [[1, 2, 3], [4, 5, 6]]: a batch whose size happens to be [E]. *)
Definition x_2_3 : rtensor := Tensor [2; 3]%nat [1; 2; 3; 4; 5; 6].

(** [in_features = out_features = E = 1]. *)
Definition layer_1_1_1 (share : bool) : EnsembleLinear :=
  mkEnsembleLinear 1 1 1 share true
    (Tensor [1; 1; 1]%nat [2]) (Tensor [1; 1]%nat [10]).

(** A vector of three features. *)
Definition x_3 : rtensor := Tensor [3]%nat [1; 2; 3].

(** A vector of five features. *)
Definition x_5 : rtensor := Tensor [5]%nat [1; 2; 3; 4; 5].

(** [in_features = 4], [out_features = 1], [E = 1], with all parameters 0. *)
Definition layer_4_1_1 : EnsembleLinear :=
  mkEnsembleLinear 4 1 1 true true
    (full [4; 1; 1]%nat 0) (full [1; 1]%nat 0).

(** [layer_3_1_2] without a trainable bias. *)
Definition layer_3_1_2_nobias (share : bool) : EnsembleLinear :=
  mkEnsembleLinear 3 1 2 share false
    (Tensor [3; 1; 2]%nat [1; 0; 0; 1; 0; 0])
    (full [1; 2]%nat 0).

End Examples.

(** ** Blocks of modules *)

Module Blocks.

Import Tensor Torch Layer.
Local Open Scope R_scope.
Local Open Scope method_scope.

(** [nn.LayerNorm(normalized_shape)] on one axis: a weight of ones and a
    bias of zeros.  An [int] is the size of the axis; any other number is
    not iterable. *)
Record LayerNorm : Type := mkLayerNorm {
  normalized_shape : nat;
  ln_weight : rtensor;
  ln_bias : rtensor
}.

Definition layer_norm (normalized_shape : pyobj) : result LayerNorm :=
  match normalized_shape with
  | PyInt z =>
      match empty [PyInt z] with
      | Ok t => Ok (mkLayerNorm (Z.to_nat z) (fill_ t 1) (fill_ t 0))
      | Raise e => Raise e
      end
  | PyFloat _ => Raise TypeError
  end.

(** [nn.Dropout(p)] keeps its rate and rejects a rate outside [[0, 1]]. *)
Definition dropout_module (p : R) : result R :=
  if Rlt_dec p 0 then Raise ValueError
  else if Rlt_dec 1 p then Raise ValueError
  else Ok p.

Section Miniblock.

(** What [linear_layer] builds, what [activation()] builds, what calling a
    module instance returns, and the values other than module instances
    that may be passed as [norm_layer] (a class, [True]). *)
Variable linear : Type.
Variable activation_module : Type.
Variable called : Type.
Variable norm_value : Type.

Inductive block_module : Type :=
| LinearLayer (m : linear)
| Norm (n : LayerNorm)
| NormCalled (v : called)
| Activation (a : activation_module)
| Dropout (p : R).

(** The [norm_layer] argument: an instance of [nn.Module], with what
    calling it on a value returns, or anything else. *)
Inductive norm_arg : Type :=
| NormInstance (call : pyobj -> result called)
| NormOther (c : norm_value).

Definition append (m : block_module) : Method (list block_module) unit :=
  update (fun layers => layers ++ [m]).

(** [miniblock(input_dim, output_dim, norm_layer, activation, dropout,
    linear_layer, *args, **kwargs)]; [linear_layer] is the class with the
    extra arguments already applied, [activation] is what [activation()]
    evaluates to. *)
Definition miniblock (input_dim output_dim : pyobj)
  (norm_layer : option norm_arg)
  (activation : option (result activation_module))
  (dropout : option R)
  (linear_layer : pyobj -> pyobj -> generator -> result linear * generator)
  (g : generator) : result (list block_module) * generator :=
  let body : Method (list block_module) (list block_module) :=
    first <- draw (linear_layer input_dim output_dim) ;;
    append (LinearLayer first) ;;
    match norm_layer with
    | Some (NormInstance call) =>
        v <- lift (call output_dim) ;; append (NormCalled v)
    | Some (NormOther _) =>
        n <- lift (layer_norm output_dim) ;; append (Norm n)
    | None => ret tt
    end ;;
    match activation with
    | Some built => a <- lift built ;; append (Activation a)
    | None => ret tt
    end ;;
    match dropout with
    | Some p =>
        if Rlt_dec 0 p then
          d <- lift (dropout_module p) ;; append (Dropout d)
        else ret tt
    | None => ret tt
    end ;;
    this
  in
  match body ([], g) with
  | (r, (_, g')) => (r, g')
  end.

End Miniblock.

Arguments LinearLayer {linear activation_module called} m.
Arguments Norm {linear activation_module called} n.
Arguments NormCalled {linear activation_module called} v.
Arguments Activation {linear activation_module called} a.
Arguments Dropout {linear activation_module called} p.
Arguments NormInstance {called norm_value} call.
Arguments NormOther {called norm_value} c.

Section Parts.

Variable linear : Type.
Variable activation_module : Type.
Variable called : Type.
Variable norm_value : Type.

(** The modules each optional argument contributes, in the order in which
    [miniblock] appends them. *)
Definition norm_modules (output_dim : pyobj)
  (norm_layer : option (norm_arg called norm_value))
  : result (list (block_module linear activation_module called)) :=
  match norm_layer with
  | Some (NormInstance call) =>
      match call output_dim with
      | Ok v => Ok [NormCalled v]
      | Raise e => Raise e
      end
  | Some (NormOther _) =>
      match layer_norm output_dim with
      | Ok n => Ok [Norm n]
      | Raise e => Raise e
      end
  | None => Ok []
  end.

Definition activation_modules (activation : option (result activation_module))
  : result (list (block_module linear activation_module called)) :=
  match activation with
  | Some (Ok a) => Ok [Activation a]
  | Some (Raise e) => Raise e
  | None => Ok []
  end.

Definition dropout_modules (dropout : option R)
  : result (list (block_module linear activation_module called)) :=
  match dropout with
  | Some p =>
      if Rlt_dec 0 p then
        match dropout_module p with
        | Ok d => Ok [Dropout d]
        | Raise e => Raise e
        end
      else Ok []
  | None => Ok []
  end.

End Parts.

(** [EnsembleLinear] passed as [linear_layer], with [ensemble_size],
    [share_input] and [bias] as the extra arguments. *)
Definition ensemble_linear_layer (ensemble_size : pyobj)
  (share_input bias : bool) (input_dim output_dim : pyobj) (g : generator)
  : result EnsembleLinear * generator :=
  init input_dim output_dim ensemble_size share_input bias g.

End Blocks.

(** ** Further notions used to state the properties *)

Module Derived.

Import Tensor Torch Layer Spec.
Local Open Scope R_scope.

(** [x.expand(n, *x.shape)]: [n] copies of [x] along a new leading axis. *)
Definition expand_front (n : nat) (x : rtensor) : rtensor :=
  tabulate (n :: shape x) (fun idx => at_ x (tl idx)).

(** The layer with its sharing mode replaced. *)
Definition with_share (share : bool) (l : EnsembleLinear) : EnsembleLinear :=
  mkEnsembleLinear (in_features l) (out_features l) (ensemble_size l)
    share (add_bias l) (weight l) (bias l).

(** Every element of [t] lies in [[-m, m]]. *)
Definition all_within (m : R) (t : rtensor) : Prop :=
  Forall (within m) (data t).

(** An [int] that the argument parser can hold in a signed 64-bit
    integer. *)
Definition fits_int64 (z : Z) : bool :=
  ((- 2 ^ 63 <=? z) && (z <? 2 ^ 63))%Z.

(** A constructor argument in the range of sizes for which acceptance is
    stated; an argument that is not an [int] is always in range. *)
Definition small_size (a : pyobj) : Prop :=
  match a with
  | PyInt z => (- size_limit <= z < size_limit)%Z
  | PyFloat _ => True
  end.

(** The exception construction raises on the given sizes, if any: the
    argument parser sees a size that is not an [int], or an [int] that does
    not fit in 64 bits, first, then allocation sees a negative one, then the
    initialisation divides by [sqrt(in_features)]. *)
Definition construction_error (i o e : pyobj) : option exn :=
  match i, o, e with
  | PyInt zi, PyInt zo, PyInt ze =>
      if negb (fits_int64 zi && fits_int64 zo && fits_int64 ze)
      then Some TypeError
      else if ((zi <? 0) || (zo <? 0) || (ze <? 0))%Z then Some RuntimeError
      else if (zi =? 0)%Z then Some ZeroDivisionError
      else None
  | _, _, _ => Some TypeError
  end.

(** The affine image [(2u - 1) * std] of the unit draws
    [first, first + 1, ...] of a generator. *)
Definition uniform_fill (g : generator) (first n : nat) (std : R) : list R :=
  map (fun p => (2 * unit_draw g (first + p) - 1) * std) (seq 0 n).

End Derived.

(** ** More concrete layers and inputs *)

Module Cases.

Import Tensor Torch Layer Spec Examples.
Local Open Scope R_scope.

(** A column of two rows with one feature each: [[5], [7]]. *)
Definition x_2_1 : rtensor := Tensor [2; 1]%nat [5; 7].

(** A single leading slice [[[1, 2, 3]]]. *)
Definition x_1_1_3 : rtensor := Tensor [1; 1; 3]%nat [1; 2; 3].

(** A second row [[4, 5, 6]]. *)
Definition x'_1_3 : rtensor := Tensor [1; 3]%nat [4; 5; 6].

(** A number, as a tensor without axes. *)
Definition x_scalar : rtensor := Tensor [] [1].

(** [in_features = 1], [out_features = 2], [E = 2]: the layer that can
    follow [layer_3_1_2], with one input slice per member. *)
Definition layer_1_2_2 : EnsembleLinear :=
  mkEnsembleLinear 1 2 2 false true
    (Tensor [1; 2; 2]%nat [1; 2; 3; 4])
    (Tensor [2; 2]%nat [0; 1; 0; 1]).

(** [in_features = 2], [out_features = 3], [E = 1], all parameters 0. *)
Definition layer_2_3_1 : EnsembleLinear :=
  mkEnsembleLinear 2 3 1 true true
    (full [2; 3; 1]%nat 0) (full [3; 1]%nat 0).

(** A layer whose [in_features] was set to 0 after construction. *)
Definition layer_0 : EnsembleLinear :=
  mkEnsembleLinear 0 1 1 true true
    (Tensor [1; 1; 1]%nat [2]) (Tensor [1; 1]%nat [10]).

(** An [nn.Linear] with a 2 x 3 weight and a bias. *)
Definition linear_2_3 : Linear :=
  mkLinear (full [2; 3]%nat 5) (Some (full [2]%nat 7)).

End Cases.

(** ** The textual representation *)

From Stdlib Require String Ascii DecimalString DecimalZ DecimalPos.

Module Repr.

Import Layer.
Import String Ascii.
Local Open Scope string_scope.

(** [str(n)] for an [int]: decimal digits, with a leading minus sign for a
    negative number. *)
Definition str_int (z : Z) : string :=
  DecimalString.NilZero.string_of_int (Z.to_int z).

(** [str(b)] for a [bool] *)
Definition str_bool (b : bool) : string :=
  if b then "True" else "False".

(** [EnsembleLinear.__repr__] *)
Definition repr (self : EnsembleLinear) : string :=
  "EnsembleLinear(in_features=" ++ str_int (in_features self)
  ++ ", out_features=" ++ str_int (out_features self)
  ++ ", bias=" ++ str_bool (add_bias self) ++ ")".

(** A string without a comma. *)
Fixpoint comma_free (s : string) : Prop :=
  match s with
  | EmptyString => True
  | String c s' => c <> ","%char /\ comma_free s'
  end.

End Repr.

(** * Properties *)

Unset Implicit Arguments.

(** ** Dense tensors *)

Module TensorFacts.

Import Tensor.

Section Dense.

Variable A : Type.
Variable dflt : A.

(** *** Indices *)

Lemma length_indices (sh : list nat) : length (indices sh) = numel sh.
Proof.
  induction sh as [|n sh IH]; simpl; [reflexivity|].
  generalize 0 as s.
  induction n as [|n IHn]; intros s; simpl; [reflexivity|].
  rewrite length_app, length_map, IH, IHn. reflexivity.
Qed.

Lemma wf_tabulate (sh : list nat) (f : list nat -> A) : wf (tabulate sh f).
Proof. unfold wf, tabulate; simpl. now rewrite length_map, length_indices. Qed.

Lemma wf_full (sh : list nat) (v : A) : wf (full sh v).
Proof. unfold wf, full; simpl. apply repeat_length. Qed.

Lemma shape_tabulate (sh : list nat) (f : list nat -> A) :
  shape (tabulate sh f) = sh.
Proof. reflexivity. Qed.

Lemma offset_lt (sh idx : list nat) :
  in_range sh idx = true -> offset sh idx < numel sh.
Proof.
  revert idx; induction sh as [|n sh IH]; intros [|i idx] H; simpl in *;
    try discriminate; [lia|].
  apply andb_true_iff in H as [Hi Hr]. apply Nat.ltb_lt in Hi.
  specialize (IH _ Hr). nia.
Qed.

(** Blocks of equal length laid side by side: the element at position
    [i * m + o] is element [o] of block [i]. *)
Lemma nth_error_blocks (X : Type) (g : nat -> list X) (m n s i o : nat) :
  (forall j, length (g j) = m) -> i < n -> o < m ->
  nth_error (flat_map g (seq s n)) (i * m + o) = nth_error (g (s + i)) o.
Proof.
  intros Hg. revert s i.
  induction n as [|n IH]; intros s i Hi Ho; [lia|]. simpl.
  destruct i as [|i].
  - simpl. rewrite nth_error_app1 by (rewrite Hg; lia).
    now rewrite Nat.add_0_r.
  - rewrite nth_error_app2 by (rewrite Hg; simpl; lia).
    rewrite Hg. replace (S i * m + o - m) with (i * m + o) by (simpl; lia).
    rewrite IH by lia. f_equal. f_equal. lia.
Qed.

Lemma nth_error_indices (sh idx : list nat) :
  in_range sh idx = true ->
  nth_error (indices sh) (offset sh idx) = Some idx.
Proof.
  revert idx; induction sh as [|n sh IH]; intros [|i idx] H; simpl in *;
    try discriminate; [reflexivity|].
  apply andb_true_iff in H as [Hi Hr]. apply Nat.ltb_lt in Hi.
  rewrite nth_error_blocks with (m := numel sh); try assumption.
  - simpl. rewrite nth_error_map, (IH _ Hr). reflexivity.
  - intros j. now rewrite length_map, length_indices.
  - now apply offset_lt.
Qed.

Lemma in_indices (sh idx : list nat) :
  In idx (indices sh) -> in_range sh idx = true.
Proof.
  revert idx; induction sh as [|n sh IH]; intros idx H; simpl in H.
  - destruct H as [<-|[]]. reflexivity.
  - apply in_flat_map in H as (i & Hi & H).
    apply in_map_iff in H as (idx' & <- & H).
    apply in_seq in Hi. simpl.
    apply andb_true_iff; split; [apply Nat.ltb_lt; lia | now apply IH].
Qed.

(** *** Reading a tabulated tensor *)

Lemma item_tabulate (sh : list nat) (f : list nat -> A) (idx : list nat) :
  in_range sh idx = true -> item dflt (tabulate sh f) idx = f idx.
Proof.
  intros H. unfold item, tabulate; simpl.
  apply nth_error_nth. rewrite nth_error_map, (nth_error_indices _ _ H).
  reflexivity.
Qed.

Lemma tabulate_ext (sh : list nat) (f g : list nat -> A) :
  (forall idx, in_range sh idx = true -> f idx = g idx) ->
  tabulate sh f = tabulate sh g.
Proof.
  intros H. unfold tabulate. f_equal.
  apply map_ext_in. intros idx Hin. apply H. now apply in_indices.
Qed.

End Dense.

End TensorFacts.

(** ** Shapes, broadcasting and the einsum equations *)

Module TorchFacts.

Import Tensor Torch TensorFacts.
Local Open Scope R_scope.

Lemma at_tabulate (sh : list nat) (f : list nat -> R) (idx : list nat) :
  in_range sh idx = true -> at_ (tabulate sh f) idx = f idx.
Proof. apply item_tabulate. Qed.

Lemma at_full (sh : list nat) (v : R) (idx : list nat) :
  in_range sh idx = true -> at_ (full sh v) idx = v.
Proof.
  intros H. unfold at_, item, full; simpl.
  apply nth_error_nth. apply nth_error_repeat. now apply offset_lt.
Qed.

Lemma rsum_ext (n : nat) (f g : nat -> R) :
  (forall j, (j < n)%nat -> f j = g j) -> rsum n f = rsum n g.
Proof.
  unfold rsum. intros H.
  assert (Hin : forall j, In j (seq 0 n) -> f j = g j)
    by (intros j Hj; apply H; apply in_seq in Hj; lia).
  induction (seq 0 n) as [|j l IH]; simpl; [reflexivity|].
  rewrite Hin by (now left). rewrite IH; [reflexivity|].
  intros i Hi. apply Hin. now right.
Qed.

(** *** Index ranges *)

Lemma in_range_length (sh idx : list nat) :
  in_range sh idx = true -> length idx = length sh.
Proof.
  revert idx; induction sh as [|n sh IH]; intros [|i idx] H; simpl in *;
    try discriminate; [reflexivity|].
  apply andb_true_iff in H as [_ H]. now rewrite (IH _ H).
Qed.

Lemma in_range_app (s1 s2 i1 i2 : list nat) :
  in_range s1 i1 = true -> in_range s2 i2 = true ->
  in_range (s1 ++ s2) (i1 ++ i2) = true.
Proof.
  revert i1; induction s1 as [|n s1 IH]; intros [|i i1] H1 H2; simpl in *;
    try discriminate; [assumption|].
  apply andb_true_iff in H1 as [Hi H1].
  now rewrite Hi, IH.
Qed.

Lemma in_range_app_inv (s1 s2 idx : list nat) :
  in_range (s1 ++ s2) idx = true ->
  exists i1 i2, idx = i1 ++ i2 /\
    in_range s1 i1 = true /\ in_range s2 i2 = true.
Proof.
  revert idx; induction s1 as [|n s1 IH]; intros idx H; simpl in *.
  - exists [], idx. auto.
  - destruct idx as [|i idx]; [discriminate|].
    apply andb_true_iff in H as [Hi H].
    destruct (IH _ H) as (i1 & i2 & -> & H1 & H2).
    exists (i :: i1), i2. simpl. now rewrite Hi, H1.
Qed.

Lemma in_range_one (n i : nat) :
  in_range [n] [i] = true <-> (i < n)%nat.
Proof.
  simpl. rewrite andb_true_r. apply Nat.ltb_lt.
Qed.

Lemma in_range_two (n m i j : nat) :
  (i < n)%nat -> (j < m)%nat -> in_range [n; m] [i; j] = true.
Proof.
  intros Hi Hj. simpl.
  apply Nat.ltb_lt in Hi, Hj. now rewrite Hi, Hj.
Qed.

Lemma split_last_app (batch : list nat) (n : nat) :
  split_last (batch ++ [n]) = Some (batch, n).
Proof.
  unfold split_last. rewrite removelast_last, last_last.
  destruct batch; reflexivity.
Qed.

Lemma split_last_inv (sh rest : list nat) (b : nat) :
  split_last sh = Some (rest, b) -> sh = rest ++ [b].
Proof.
  intros H. destruct sh as [|a sh']; [discriminate|].
  assert (E : a :: sh' = removelast (a :: sh') ++ [last (a :: sh') 0%nat])
    by (apply app_removelast_last; discriminate).
  unfold split_last in H. injection H as H1 H2.
  rewrite <- H1, <- H2. exact E.
Qed.

(** *** Broadcasting *)

Lemma broadcast_dim_same (n : nat) : broadcast_dim n n = Some n.
Proof.
  unfold broadcast_dim. destruct (n =? 1); [reflexivity|].
  now rewrite Nat.eqb_refl.
Qed.

Lemma broadcast_dim_idem (a b c : nat) :
  broadcast_dim a b = Some c -> broadcast_dim c b = Some c.
Proof.
  unfold broadcast_dim.
  destruct (a =? 1) eqn:Ea; [intros [= ->]; apply broadcast_dim_same|].
  destruct (b =? 1) eqn:Eb; [intros [= ->]; now rewrite Ea|].
  destruct (a =? b) eqn:Eab; [|discriminate].
  intros [= ->]. now rewrite Ea, Eab.
Qed.

Lemma broadcast_dim_none (a b : nat) :
  a <> b -> a <> 1%nat -> b <> 1%nat -> broadcast_dim a b = None.
Proof.
  intros Hab Ha Hb. unfold broadcast_dim.
  apply Nat.eqb_neq in Hab, Ha, Hb. now rewrite Ha, Hb, Hab.
Qed.

Lemma bidx_small (n i : nat) : (i < n)%nat -> bidx n i = i.
Proof.
  unfold bidx. intros H. destruct (n =? 1) eqn:E; [|reflexivity].
  apply Nat.eqb_eq in E. lia.
Qed.

Lemma bidx_lt_l (a b c i : nat) :
  broadcast_dim a b = Some c -> (i < c)%nat -> (bidx a i < a)%nat.
Proof.
  unfold broadcast_dim, bidx.
  destruct (a =? 1) eqn:Ea.
  - apply Nat.eqb_eq in Ea. lia.
  - destruct (b =? 1); [intros [= ->]; trivial|].
    destruct (a =? b); [intros [= ->]; trivial | discriminate].
Qed.

Lemma bidx_lt_r (a b c i : nat) :
  broadcast_dim a b = Some c -> (i < c)%nat -> (bidx b i < b)%nat.
Proof.
  unfold broadcast_dim, bidx.
  destruct (a =? 1) eqn:Ea.
  - intros [= ->] Hi. destruct (c =? 1) eqn:Ec; [|assumption].
    apply Nat.eqb_eq in Ec. lia.
  - destruct (b =? 1) eqn:Eb; [apply Nat.eqb_eq in Eb; lia|].
    destruct (a =? b) eqn:Eab; [|discriminate].
    apply Nat.eqb_eq in Eab. intros [= ->]. now subst.
Qed.

Lemma clamp_in_range (sh idx : list nat) :
  in_range sh idx = true -> clamp sh idx = idx.
Proof.
  revert idx; induction sh as [|n sh IH]; intros [|i idx] H; simpl in *;
    try discriminate; [reflexivity|].
  apply andb_true_iff in H as [Hi H]. apply Nat.ltb_lt in Hi.
  now rewrite bidx_small, IH.
Qed.

Lemma clamp_app (s1 s2 i1 i2 : list nat) :
  length i1 = length s1 ->
  clamp (s1 ++ s2) (i1 ++ i2) = clamp s1 i1 ++ clamp s2 i2.
Proof.
  revert i1; induction s1 as [|n s1 IH]; intros [|i i1] H; simpl in *;
    try discriminate; [reflexivity|].
  now rewrite IH by lia.
Qed.

Lemma broadcast_shapes_suffix (batch : list nat) (k b e b' : nat) :
  broadcast_dim b e = Some b' ->
  broadcast_shapes (batch ++ [k; b]) [k; e] = Some (batch ++ [k; b']).
Proof.
  intros Hb. unfold broadcast_shapes.
  rewrite rev_app_distr. simpl. rewrite Hb, broadcast_dim_same.
  replace (broadcast_rev (rev batch) []) with (Some (rev batch))
    by (now destruct (rev batch)).
  simpl. rewrite rev_involutive, <- app_assoc. reflexivity.
Qed.

Lemma broadcast_shapes_suffix_none (batch : list nat) (k b e : nat) :
  broadcast_dim b e = None ->
  broadcast_shapes (batch ++ [k; b]) [k; e] = None.
Proof.
  intros Hb. unfold broadcast_shapes.
  rewrite rev_app_distr. simpl. now rewrite Hb.
Qed.

(** *** Addition of a [k, e] tensor to a [..., k, b] tensor *)

Lemma bproject_full (batch bi : list nat) (k b ik ib : nat) :
  in_range batch bi = true -> (ik < k)%nat ->
  bproject (batch ++ [k; b]) (bi ++ [ik; ib]) = bi ++ [ik; bidx b ib].
Proof.
  intros Hbi Hk. pose proof (in_range_length _ _ Hbi) as Hlen.
  unfold bproject. rewrite !length_app, Hlen, Nat.sub_diag. simpl skipn.
  rewrite clamp_app by assumption.
  rewrite (clamp_in_range _ _ Hbi). simpl. now rewrite bidx_small.
Qed.

Lemma bproject_suffix (bi : list nat) (k e ik ib : nat) :
  (ik < k)%nat ->
  bproject [k; e] (bi ++ [ik; ib]) = [ik; bidx e ib].
Proof.
  intros Hk. unfold bproject. rewrite length_app. simpl length.
  replace (length bi + 2 - 2)%nat with (length bi) by lia.
  rewrite skipn_app, skipn_all, Nat.sub_diag. simpl.
  now rewrite bidx_small.
Qed.

Lemma add_suffix (r c : rtensor) (batch : list nat) (k b e b' : nat) :
  shape r = batch ++ [k; b] -> shape c = [k; e] ->
  broadcast_dim b e = Some b' ->
  exists s, add r c = Ok s /\ shape s = batch ++ [k; b'] /\ wf s /\
    forall bi ik ib,
      in_range batch bi = true -> (ik < k)%nat -> (ib < b')%nat ->
      at_ s (bi ++ [ik; ib])
      = at_ r (bi ++ [ik; bidx b ib]) + at_ c [ik; bidx e ib].
Proof.
  intros Hr Hc Hb. unfold add.
  rewrite Hr, Hc, (broadcast_shapes_suffix _ _ _ _ _ Hb).
  eexists. split; [reflexivity|]. split; [reflexivity|].
  split; [apply wf_tabulate|].
  intros bi ik ib Hbi Hk Hib.
  rewrite at_tabulate
    by (apply in_range_app; [assumption | now apply in_range_two]).
  now rewrite bproject_full, bproject_suffix.
Qed.

Lemma add_suffix_raises (r c : rtensor) (batch : list nat) (k b e : nat) :
  shape r = batch ++ [k; b] -> shape c = [k; e] ->
  broadcast_dim b e = None -> add r c = Raise RuntimeError.
Proof.
  intros Hr Hc Hb. unfold add.
  now rewrite Hr, Hc, (broadcast_shapes_suffix_none _ _ _ _ Hb).
Qed.

(** *** The contractions *)

Lemma nth_after (bi : list nat) (a b : nat) :
  nth (length bi) (bi ++ [a; b]) 0%nat = a
  /\ nth (S (length bi)) (bi ++ [a; b]) 0%nat = b.
Proof.
  split.
  - now rewrite nth_middle.
  - rewrite app_nth2 by lia.
    replace (S (length bi) - length bi)%nat with 1%nat by lia. reflexivity.
Qed.

Lemma einsum_shared_ok (x w : rtensor) (batch : list nat) (ji jw k b j : nat) :
  shape x = batch ++ [ji] -> shape w = [jw; k; b] ->
  broadcast_dim ji jw = Some j ->
  exists r, einsum_shared x w = Ok r /\ shape r = batch ++ [k; b] /\
    forall bi ik ib,
      in_range batch bi = true -> (ik < k)%nat -> (ib < b)%nat ->
      at_ r (bi ++ [ik; ib])
      = rsum j (fun ij =>
          at_ x (bi ++ [bidx ji ij]) * at_ w [bidx jw ij; ik; ib]).
Proof.
  intros Hx Hw Hj. unfold einsum_shared.
  rewrite Hx, split_last_app, Hw, Hj.
  eexists. split; [reflexivity|]. split; [reflexivity|].
  intros bi ik ib Hbi Hk Hib.
  rewrite at_tabulate
    by (apply in_range_app; [assumption | now apply in_range_two]).
  rewrite <- (in_range_length _ _ Hbi).
  destruct (nth_after bi ik ib) as [-> ->].
  now rewrite firstn_app, firstn_all, Nat.sub_diag, app_nil_r.
Qed.

Lemma einsum_member_ok (x w : rtensor) (batch : list nat)
  (bx ji jw k bw b j : nat) :
  shape x = bx :: batch ++ [ji] -> shape w = [jw; k; bw] ->
  broadcast_dim bx bw = Some b -> broadcast_dim ji jw = Some j ->
  exists r, einsum_member x w = Ok r /\ shape r = batch ++ [k; b] /\
    forall bi ik ib,
      in_range batch bi = true -> (ik < k)%nat -> (ib < b)%nat ->
      at_ r (bi ++ [ik; ib])
      = rsum j (fun ij =>
          at_ x (bidx bx ib :: bi ++ [bidx ji ij])
          * at_ w [bidx jw ij; ik; bidx bw ib]).
Proof.
  intros Hx Hw Hb Hj. unfold einsum_member.
  rewrite Hx, Hw, split_last_app, Hb, Hj.
  eexists. split; [reflexivity|]. split; [reflexivity|].
  intros bi ik ib Hbi Hk Hib.
  rewrite at_tabulate
    by (apply in_range_app; [assumption | now apply in_range_two]).
  rewrite <- (in_range_length _ _ Hbi).
  destruct (nth_after bi ik ib) as [-> ->].
  now rewrite firstn_app, firstn_all, Nat.sub_diag, app_nil_r.
Qed.

Lemma einsum_to_front_ok (t : rtensor) (rest : list nat) (b : nat) :
  shape t = rest ++ [b] ->
  exists y, einsum_to_front t = Ok y /\ shape y = b :: rest /\ wf y /\
    forall ib r, (ib < b)%nat -> in_range rest r = true ->
      at_ y (ib :: r) = at_ t (r ++ [ib]).
Proof.
  intros Ht. unfold einsum_to_front. rewrite Ht, split_last_app.
  eexists. split; [reflexivity|]. split; [reflexivity|].
  split; [apply wf_tabulate|].
  intros ib r Hib Hr. rewrite at_tabulate; [reflexivity|].
  simpl. apply Nat.ltb_lt in Hib. now rewrite Hib.
Qed.

End TorchFacts.

(** ** The forward transform *)

Module ForwardFacts.

Import Tensor Torch Layer Spec TensorFacts TorchFacts.
Local Open Scope R_scope.

(** [forward] reads the layer and returns a value; it stores nothing. *)
Lemma forward_run (x : rtensor) (l : EnsembleLinear) (g : generator) :
  forward x (l, g)
  = (match (if share_input l then einsum_shared x (weight l)
            else einsum_member x (weight l)) with
     | Ok r =>
         match add r (bias l) with
         | Ok s => einsum_to_front s
         | Raise e => Raise e
         end
     | Raise e => Raise e
     end, (l, g)).
Proof.
  unfold forward, bind, this, lift; simpl.
  destruct (share_input l).
  - destruct (einsum_shared x (weight l)); [|reflexivity].
    destruct (add x0 (bias l)); reflexivity.
  - destruct (einsum_member x (weight l)); [|reflexivity].
    destruct (add x0 (bias l)); reflexivity.
Qed.

(** Shared input, with the sizes of the contracted axis broadcast. *)
Lemma forward_shared_gen (l : EnsembleLinear) (g : generator) (x : rtensor)
  (batch : list nat) (ji j : nat) :
  layer_inv l -> share_input l = true ->
  shape x = batch ++ [ji] ->
  broadcast_dim ji (dim (in_features l)) = Some j ->
  exists y,
    forward x (l, g) = (Ok y, (l, g)) /\
    shape y = dim (ensemble_size l) :: batch ++ [dim (out_features l)] /\
    wf y /\
    forall e bi k,
      (e < dim (ensemble_size l))%nat -> in_range batch bi = true ->
      (k < dim (out_features l))%nat ->
      at_ y (e :: bi ++ [k])
      = rsum j (fun ij =>
          at_ x (bi ++ [bidx ji ij])
          * at_ (weight l) [bidx (dim (in_features l)) ij; k; e])
        + at_ (bias l) [k; e].
Proof.
  intros (_ & _ & _ & Hw & _ & Hb & _) Hshare Hx Hj.
  rewrite forward_run, Hshare.
  destruct (einsum_shared_ok _ _ _ _ _ _ _ _ Hx Hw Hj)
    as (r & -> & Hr & Hrat).
  destruct (add_suffix _ _ _ _ _ _ _ Hr Hb
              (broadcast_dim_same (dim (ensemble_size l))))
    as (s & -> & Hs & _ & Hsat).
  destruct (einsum_to_front_ok s (batch ++ [dim (out_features l)])
              (dim (ensemble_size l)))
    as (y & -> & Hy & Hwf & Hyat).
  { rewrite Hs, <- app_assoc. reflexivity. }
  exists y. split; [reflexivity|]. split; [assumption|].
  split; [assumption|].
  intros e bi k He Hbi Hk.
  rewrite Hyat by (assumption || (apply in_range_app;
                   [assumption | now apply in_range_one])).
  rewrite <- app_assoc. simpl. rewrite Hsat by assumption.
  rewrite (bidx_small _ _ He). now rewrite Hrat.
Qed.

(** One input slice per member, with the sizes of the contracted axis and
    of the ensemble axis broadcast. *)
Lemma forward_member_gen (l : EnsembleLinear) (g : generator) (x : rtensor)
  (batch : list nat) (bx ji b j : nat) :
  layer_inv l -> share_input l = false ->
  shape x = bx :: batch ++ [ji] ->
  broadcast_dim bx (dim (ensemble_size l)) = Some b ->
  broadcast_dim ji (dim (in_features l)) = Some j ->
  exists y,
    forward x (l, g) = (Ok y, (l, g)) /\
    shape y = b :: batch ++ [dim (out_features l)] /\
    wf y /\
    forall e bi k,
      (e < b)%nat -> in_range batch bi = true ->
      (k < dim (out_features l))%nat ->
      at_ y (e :: bi ++ [k])
      = rsum j (fun ij =>
          at_ x (bidx bx e :: bi ++ [bidx ji ij])
          * at_ (weight l)
              [bidx (dim (in_features l)) ij; k;
               bidx (dim (ensemble_size l)) e])
        + at_ (bias l) [k; bidx (dim (ensemble_size l)) e].
Proof.
  intros (_ & _ & _ & Hw & _ & Hb & _) Hshare Hx Hbb Hj.
  rewrite forward_run, Hshare.
  destruct (einsum_member_ok _ _ _ _ _ _ _ _ _ _ Hx Hw Hbb Hj)
    as (r & -> & Hr & Hrat).
  destruct (add_suffix _ _ _ _ _ _ _ Hr Hb (broadcast_dim_idem _ _ _ Hbb))
    as (s & -> & Hs & _ & Hsat).
  destruct (einsum_to_front_ok s (batch ++ [dim (out_features l)]) b)
    as (y & -> & Hy & Hwf & Hyat).
  { rewrite Hs, <- app_assoc. reflexivity. }
  exists y. split; [reflexivity|]. split; [assumption|].
  split; [assumption|].
  intros e bi k He Hbi Hk.
  rewrite Hyat by (assumption || (apply in_range_app;
                   [assumption | now apply in_range_one])).
  rewrite <- app_assoc. simpl. rewrite Hsat by assumption.
  rewrite (bidx_small _ _ He). now rewrite Hrat.
Qed.

(** *** Member slices *)

Lemma in_range_one_inv (n : nat) (idx : list nat) :
  in_range [n] idx = true -> exists k, idx = [k] /\ (k < n)%nat.
Proof.
  destruct idx as [|k [|? ?]]; simpl; try discriminate.
  - rewrite andb_true_r. intros H. exists k. split; [reflexivity|].
    now apply Nat.ltb_lt.
  - rewrite andb_false_r. discriminate.
Qed.

Lemma member_weight_at (l : EnsembleLinear) (e j k : nat) :
  layer_inv l ->
  (j < dim (in_features l))%nat -> (k < dim (out_features l))%nat ->
  at_ (select_last 0 (weight l) e) [j; k] = at_ (weight l) [j; k; e].
Proof.
  intros (_ & _ & _ & Hw & _) Hj Hk. unfold select_last. rewrite Hw.
  simpl removelast. rewrite at_tabulate by (now apply in_range_two).
  reflexivity.
Qed.

Lemma member_bias_at (l : EnsembleLinear) (e k : nat) :
  layer_inv l -> (k < dim (out_features l))%nat ->
  at_ (select_last 0 (bias l) e) [k] = at_ (bias l) [k; e].
Proof.
  intros (_ & _ & _ & _ & _ & Hb & _) Hk. unfold select_last. rewrite Hb.
  simpl removelast. rewrite at_tabulate by (now apply in_range_one).
  reflexivity.
Qed.

(** An output whose slice [e] is the affine image of the rows [xe] under
    member [e]'s parameters has, as slice [e], the output of the
    single-member linear layer built from those parameters. *)
Lemma slice_single_linear (l : EnsembleLinear) (xe y : rtensor)
  (batch : list nat) (b e : nat) :
  layer_inv l ->
  shape xe = batch ++ [dim (in_features l)] ->
  shape y = b :: batch ++ [dim (out_features l)] ->
  (forall bi k,
     in_range batch bi = true -> (k < dim (out_features l))%nat ->
     at_ y (e :: bi ++ [k])
     = rsum (dim (in_features l)) (fun j =>
         at_ xe (bi ++ [j]) * at_ (weight l) [j; k; e])
       + at_ (bias l) [k; e]) ->
  select_first 0 y e
  = single_linear xe (select_last 0 (weight l) e)
      (select_last 0 (bias l) e).
Proof.
  intros Hinv Hxe Hy Hat.
  unfold select_first, single_linear.
  rewrite Hy, Hxe, removelast_last, last_last. simpl tl.
  replace (nth 1 (shape (select_last 0 (weight l) e)) 0%nat)
    with (dim (out_features l))
    by (destruct Hinv as (_ & _ & _ & Hw & _);
        unfold select_last; now rewrite Hw).
  apply tabulate_ext. intros idx Hidx.
  apply in_range_app_inv in Hidx as (bi & i2 & -> & Hbi & Hi2).
  apply in_range_one_inv in Hi2 as (k & -> & Hk).
  change (item 0 y (e :: bi ++ [k])) with (at_ y (e :: bi ++ [k])).
  rewrite Hat by assumption.
  rewrite removelast_last, last_last.
  rewrite member_bias_at by assumption. f_equal.
  apply rsum_ext. intros j Hj.
  now rewrite member_weight_at.
Qed.

(** One input slice per member, with the sizes the layer expects. *)
Lemma forward_member_exact (l : EnsembleLinear) (g : generator)
  (x : rtensor) (batch : list nat) :
  layer_inv l -> share_input l = false ->
  shape x = dim (ensemble_size l) :: batch ++ [dim (in_features l)] ->
  exists y,
    forward x (l, g) = (Ok y, (l, g)) /\
    shape y = dim (ensemble_size l) :: batch ++ [dim (out_features l)] /\
    (forall e bi k,
       (e < dim (ensemble_size l))%nat -> in_range batch bi = true ->
       (k < dim (out_features l))%nat ->
       at_ y (e :: bi ++ [k])
       = rsum (dim (in_features l)) (fun j =>
           at_ x (e :: bi ++ [j]) * at_ (weight l) [j; k; e])
         + at_ (bias l) [k; e]) /\
    (forall e, (e < dim (ensemble_size l))%nat ->
       select_first 0 y e
       = single_linear (select_first 0 x e) (select_last 0 (weight l) e)
           (select_last 0 (bias l) e)).
Proof.
  intros Hinv Hshare Hx.
  destruct (forward_member_gen l g x batch _ _ _ _ Hinv Hshare Hx
              (broadcast_dim_same _) (broadcast_dim_same _))
    as (y & Hrun & Hy & _ & Hat).
  assert (Hat' : forall e bi k,
    (e < dim (ensemble_size l))%nat -> in_range batch bi = true ->
    (k < dim (out_features l))%nat ->
    at_ y (e :: bi ++ [k])
    = rsum (dim (in_features l)) (fun j =>
        at_ x (e :: bi ++ [j]) * at_ (weight l) [j; k; e])
      + at_ (bias l) [k; e]).
  { intros e bi k He Hbi Hk. rewrite Hat by assumption.
    rewrite (bidx_small _ _ He). f_equal.
    apply rsum_ext. intros j Hj. now rewrite bidx_small. }
  exists y. split; [assumption|]. split; [assumption|].
  split; [assumption|].
  intros e He.
  apply slice_single_linear with (batch := batch)
    (b := dim (ensemble_size l)); try assumption.
  - unfold select_first. now rewrite Hx.
  - intros bi k Hbi Hk. rewrite Hat' by assumption. f_equal.
    apply rsum_ext. intros j Hj. f_equal.
    unfold select_first. rewrite Hx. simpl tl.
    rewrite at_tabulate; [reflexivity|].
    apply in_range_app; [assumption | now apply in_range_one].
Qed.

End ForwardFacts.

(** ** Initialisation and construction *)

Module InitFacts.

Import Tensor Torch Layer Spec TensorFacts TorchFacts.
Local Open Scope R_scope.

Lemma unit_draws_advance (g : generator) (n : nat) :
  unit_draws g -> unit_draws (advance g n).
Proof. intros H p. apply H. Qed.

Lemma uniform_within (t : rtensor) (a b : R) (g : generator) :
  a <= b ->
  exists t',
    uniform_ t a b g = (Ok t', advance g (numel (shape t))) /\
    shape t' = shape t /\ wf t' /\
    (unit_draws g -> Forall (fun v => a <= v <= b) (data t')).
Proof.
  intros Hab. unfold uniform_.
  destruct (Rlt_dec b a) as [Hlt|_]; [lra|].
  eexists. split; [reflexivity|]. split; [reflexivity|]. split.
  - unfold wf; simpl. now rewrite length_map, length_seq.
  - intros Hu. simpl. apply Forall_forall. intros v Hv.
    apply in_map_iff in Hv as (i & <- & _).
    destruct (Hu (pos g + i)%nat) as [H0 H1]. nra.
Qed.

Lemma fan_in_positive (n : Z) : (0 < n)%Z -> 0 < sqrt (IZR n).
Proof. intros H. apply sqrt_lt_R0. now apply IZR_lt. Qed.

(** With a positive fan-in, [reset_parameters] returns; it redraws [weight],
    and [bias] when trainable, and touches nothing else. *)
Lemma reset_parameters_ok (l : EnsembleLinear) (g : generator) :
  (0 < in_features l)%Z ->
  exists l' g',
    reset_parameters (l, g) = (Ok tt, (l', g')) /\
    frame l l' /\ wf (weight l') /\ (wf (bias l) -> wf (bias l')) /\
    (unit_draws g -> bounded l' /\ unit_draws g').
Proof.
  intros Hin. pose proof (fan_in_positive _ Hin) as Hs.
  assert (Hstd : - (1 / sqrt (IZR (in_features l)))
                 <= 1 / sqrt (IZR (in_features l))).
  { assert (0 < 1 / sqrt (IZR (in_features l)))
      by (apply Rdiv_lt_0_compat; lra). lra. }
  assert (Hfan : 1 / sqrt (IZR (in_features l)) = fan_in_bound l)
    by (unfold fan_in_bound, Rdiv; apply Rmult_1_l).
  unfold reset_parameters, bind, this, lift, draw, update, ret; simpl.
  unfold math_sqrt. destruct (in_features l <? 0)%Z eqn:E;
    [apply Z.ltb_lt in E; lia|].
  unfold truediv. destruct (Req_dec_T (sqrt (IZR (in_features l))) 0);
    [lra|].
  destruct (uniform_within (weight l) _ _ g Hstd)
    as (w & -> & Hwsh & Hwwf & Hwb).
  destruct (add_bias l) eqn:Eb.
  - destruct (uniform_within (bias l) _ _
                (advance g (numel (shape (weight l)))) Hstd)
      as (b & Hb & Hbsh & Hbwf & Hbb).
    simpl. rewrite Hb. simpl.
    eexists. eexists. split; [reflexivity|].
    split; [|split; [assumption|split; [intros _; assumption|]]].
    + unfold frame; simpl. rewrite Eb. repeat split; try assumption.
      discriminate.
    + intros Hu. split; [split|]; simpl.
      * unfold fan_in_bound in *; simpl. rewrite <- Hfan.
        apply Hwb, Hu.
      * intros _. unfold fan_in_bound in *; simpl. rewrite <- Hfan.
        apply Hbb. now apply unit_draws_advance.
      * now repeat apply unit_draws_advance.
  - simpl.
    eexists. eexists. split; [reflexivity|].
    split; [|split; [assumption|split; [intros H; exact H|]]].
    + unfold frame; simpl. rewrite Eb. repeat split; assumption.
    + intros Hu. split; [split|]; simpl.
      * unfold fan_in_bound in *; simpl. rewrite <- Hfan.
        apply Hwb, Hu.
      * rewrite Eb. discriminate.
      * now apply unit_draws_advance.
Qed.

(** [reset_parameters] never touches a bias that is not trainable, whether
    it returns or raises. *)
Lemma reset_parameters_keeps_buffer (l : EnsembleLinear) (g : generator) :
  add_bias l = false ->
  add_bias (fst (snd (reset_parameters (l, g)))) = false /\
  bias (fst (snd (reset_parameters (l, g)))) = bias l.
Proof.
  intros Eb.
  unfold reset_parameters, bind, this, lift, draw, update, ret; simpl.
  destruct (math_sqrt (in_features l)) as [root|]; [|now split].
  destruct (truediv 1 root) as [std|]; [|now split].
  destruct (uniform_ (weight l) (- std) std g) as [[w|] g']; [|now split].
  simpl. rewrite Eb. simpl. now split.
Qed.

(** *** Sizes *)

Lemma size_arg_ints (zs : list Z) :
  Forall (fun z => (0 <= z)%Z) zs ->
  size_arg (map PyInt zs) = Ok (map dim zs).
Proof.
  unfold size_arg. intros H.
  assert (Hints : as_ints (map PyInt zs) = Ok zs).
  { clear H. induction zs as [|z zs IH]; simpl; [reflexivity|].
    now rewrite IH. }
  rewrite Hints. clear Hints. induction H as [|z zs Hz _ IH]; simpl; [reflexivity|].
  destruct (z <? 0)%Z eqn:E; [apply Z.ltb_lt in E; lia|].
  now rewrite IH.
Qed.

Lemma size_arg_negative (zs : list Z) :
  Exists (fun z => (z < 0)%Z) zs ->
  size_arg (map PyInt zs) = Raise RuntimeError.
Proof.
  unfold size_arg. intros H.
  assert (Hints : as_ints (map PyInt zs) = Ok zs).
  { clear H. induction zs as [|z zs IH]; simpl; [reflexivity|].
    now rewrite IH. }
  rewrite Hints. clear Hints. induction H as [z zs Hz|z zs _ IH]; simpl.
  - apply Z.ltb_lt in Hz. now rewrite Hz.
  - destruct (z <? 0)%Z; [reflexivity|]. now rewrite IH.
Qed.

Lemma if_const (X : Type) (b : bool) (x : X) : (if b then x else x) = x.
Proof. now destruct b. Qed.

(** Construction with a positive [in_features] and non-negative
    [out_features] and [ensemble_size] succeeds. *)
Lemma init_ok (i o e : Z) (share b : bool) (g : generator) :
  (0 < i)%Z -> (0 <= o)%Z -> (0 <= e)%Z ->
  exists l g',
    init (PyInt i) (PyInt o) (PyInt e) share b g = (Ok l, g') /\
    in_features l = i /\ out_features l = o /\ ensemble_size l = e /\
    share_input l = share /\ add_bias l = b /\
    layer_inv l /\
    (b = false -> bias l = full [dim o; dim e] 0) /\
    (unit_draws g -> bounded l).
Proof.
  intros Hi Ho He.
  destruct (reset_parameters_ok
              (mkEnsembleLinear i o e share b
                 (full (map dim [i; o; e]) 0) (full (map dim [o; e]) 0))
              g Hi)
    as (l & g' & Heq & Hfr & Hwf & Hbwf & Hbd).
  destruct Hfr as (E1 & E2 & E3 & E4 & E5 & E6 & E7 & E8). simpl in *.
  exists l, g'. split.
  - unfold init, empty, zeros.
    change [PyInt i; PyInt o; PyInt e] with (map PyInt [i; o; e]).
    change [PyInt o; PyInt e] with (map PyInt [o; e]).
    rewrite !size_arg_ints by (repeat constructor; lia).
    destruct b; simpl; simpl in Heq; rewrite Heq; reflexivity.
  - repeat (split; [assumption|]).
    split; [|split].
    + unfold layer_inv. rewrite E1, E2, E3, E6, E7.
      repeat split; try lia; try assumption.
      apply Hbwf. apply wf_full.
    + intros ->. now apply E8.
    + intros Hu. now apply Hbd.
Qed.

End InitFacts.

(** ** The transform of the specification *)

Module Transform.

Import Tensor Torch Layer Spec Examples.
Import TensorFacts TorchFacts ForwardFacts InitFacts.
Local Open Scope R_scope.

(** C1. With [share_input = true], every input of shape
    [[..., in_features]] is transformed into a tensor of shape
    [[E, ..., out_features]] whose entry at [[e, ..., k]] is
    [sum_j input[..., j] * weight[j, k, e] + bias[k, e]]; the slice
    [output[e]] is the output of the single-member linear layer with weight
    [weight[:, :, e]] and bias [bias[:, e]] on the same input. *)
Theorem shared_input_transform (l : EnsembleLinear) (g : generator)
  (x : rtensor) (batch : list nat) :
  layer_inv l -> share_input l = true -> wf x ->
  shape x = batch ++ [dim (in_features l)] ->
  exists y,
    fst (forward x (l, g)) = Ok y /\
    shape y = dim (ensemble_size l) :: batch ++ [dim (out_features l)] /\
    (forall e bi k,
       (e < dim (ensemble_size l))%nat -> in_range batch bi = true ->
       (k < dim (out_features l))%nat ->
       at_ y (e :: bi ++ [k])
       = rsum (dim (in_features l)) (fun j =>
           at_ x (bi ++ [j]) * at_ (weight l) [j; k; e])
         + at_ (bias l) [k; e]) /\
    (forall e, (e < dim (ensemble_size l))%nat ->
       select_first 0 y e
       = single_linear x (select_last 0 (weight l) e)
           (select_last 0 (bias l) e)).
Proof.
  intros Hinv Hshare _ Hx.
  destruct (forward_shared_gen l g x batch _ _ Hinv Hshare Hx
              (broadcast_dim_same _))
    as (y & Hrun & Hy & _ & Hat).
  assert (Hat' : forall e bi k,
    (e < dim (ensemble_size l))%nat -> in_range batch bi = true ->
    (k < dim (out_features l))%nat ->
    at_ y (e :: bi ++ [k])
    = rsum (dim (in_features l)) (fun j =>
        at_ x (bi ++ [j]) * at_ (weight l) [j; k; e])
      + at_ (bias l) [k; e]).
  { intros e bi k He Hbi Hk. rewrite Hat by assumption. f_equal.
    apply rsum_ext. intros j Hj. now rewrite bidx_small. }
  exists y. rewrite Hrun. split; [reflexivity|]. split; [assumption|].
  split; [assumption|].
  intros e He. apply slice_single_linear with (batch := batch)
    (b := dim (ensemble_size l)); try assumption.
  intros bi k Hbi Hk. now apply Hat'.
Qed.

Lemma shared_input_transform_witness :
  layer_inv (layer_3_1_2 true) /\ wf x_1_3 /\
  exists y,
    fst (forward x_1_3 (layer_3_1_2 true, gen0)) = Ok y /\
    shape y = [2; 1; 1]%nat /\
    at_ y [0; 0; 0]%nat
    = rsum 3 (fun j => at_ x_1_3 [0%nat; j]
                       * at_ (weight (layer_3_1_2 true)) [j; 0%nat; 0%nat])
      + at_ (bias (layer_3_1_2 true)) [0; 0]%nat.
Proof.
  assert (Hinv : layer_inv (layer_3_1_2 true))
    by (repeat split; simpl; lia).
  assert (Hwf : wf x_1_3) by reflexivity.
  split; [exact Hinv|]. split; [exact Hwf|].
  destruct (shared_input_transform (layer_3_1_2 true) gen0 x_1_3 [1%nat]
              Hinv eq_refl Hwf eq_refl) as (y & Hrun & Hy & Hat & _).
  exists y. split; [exact Hrun|]. split; [exact Hy|].
  exact (Hat 0%nat [0%nat] 0%nat ltac:(simpl; lia) eq_refl ltac:(simpl; lia)).
Defined.

(** The concrete scenario of the specification: [input = [[1, 2, 3]]]
    gives [output[0] = [[1]]] and [output[1] = [[2]]]. *)
Example scenario_3_1_2 :
  fst (forward x_1_3 (layer_3_1_2 true, gen0))
  = Ok (Tensor [2; 1; 1]%nat [1; 2]).
Proof. cbv -[Rplus Rmult IZR]. repeat f_equal; lra. Qed.

(** C2. With [share_input = false], every input of shape
    [[E, ..., in_features]] is transformed into a tensor of shape
    [[E, ..., out_features]] whose entry at [[e, ..., k]] is
    [sum_j input[e, ..., j] * weight[j, k, e] + bias[k, e]]; [output[e]] is
    the single-member linear image of [input[e]], so an input that differs
    only outside slice [e] gives the same [output[e]]. *)
Theorem per_member_transform (l : EnsembleLinear) (g : generator)
  (x x' : rtensor) (batch : list nat) (e : nat) :
  layer_inv l -> share_input l = false -> wf x ->
  shape x = dim (ensemble_size l) :: batch ++ [dim (in_features l)] ->
  wf x' -> shape x' = shape x ->
  (e < dim (ensemble_size l))%nat ->
  select_first 0 x' e = select_first 0 x e ->
  exists y y',
    fst (forward x (l, g)) = Ok y /\
    shape y = dim (ensemble_size l) :: batch ++ [dim (out_features l)] /\
    (forall e bi k,
       (e < dim (ensemble_size l))%nat -> in_range batch bi = true ->
       (k < dim (out_features l))%nat ->
       at_ y (e :: bi ++ [k])
       = rsum (dim (in_features l)) (fun j =>
           at_ x (e :: bi ++ [j]) * at_ (weight l) [j; k; e])
         + at_ (bias l) [k; e]) /\
    (forall e, (e < dim (ensemble_size l))%nat ->
       select_first 0 y e
       = single_linear (select_first 0 x e) (select_last 0 (weight l) e)
           (select_last 0 (bias l) e)) /\
    fst (forward x' (l, g)) = Ok y' /\
    select_first 0 y' e = select_first 0 y e.
Proof.
  intros Hinv Hshare _ Hx _ Hx' He Hslice. rewrite Hx in Hx'.
  destruct (forward_member_exact l g x batch Hinv Hshare Hx)
    as (y & Hrun & Hy & Hat & Hsl).
  destruct (forward_member_exact l g x' batch Hinv Hshare Hx')
    as (y' & Hrun' & _ & _ & Hsl').
  exists y, y'. rewrite Hrun, Hrun'.
  repeat (split; [first [reflexivity | assumption]|]).
  now rewrite Hsl', Hsl, Hslice.
Qed.

Lemma per_member_transform_witness :
  layer_inv (layer_3_1_2 false) /\
  select_first 0 x_2_1_3' 1 = select_first 0 x_2_1_3 1 /\
  at_ x_2_1_3' [0; 0; 0]%nat <> at_ x_2_1_3 [0; 0; 0]%nat /\
  exists y y',
    fst (forward x_2_1_3 (layer_3_1_2 false, gen0)) = Ok y /\
    fst (forward x_2_1_3' (layer_3_1_2 false, gen0)) = Ok y' /\
    shape y = [2; 1; 1]%nat /\
    select_first 0 y' 1 = select_first 0 y 1.
Proof.
  assert (Hinv : layer_inv (layer_3_1_2 false))
    by (repeat split; simpl; lia).
  assert (Hsl : select_first 0 x_2_1_3' 1 = select_first 0 x_2_1_3 1)
    by reflexivity.
  split; [exact Hinv|]. split; [exact Hsl|].
  split; [cbv -[IZR]; lra|].
  destruct (per_member_transform (layer_3_1_2 false) gen0 x_2_1_3 x_2_1_3'
              [1%nat] 1%nat Hinv eq_refl eq_refl eq_refl eq_refl eq_refl
              ltac:(simpl; lia) Hsl)
    as (y & y' & Hrun & Hy & _ & _ & Hrun' & Hsame).
  exists y, y'. repeat split; assumption.
Defined.

(** C10. With [share_input = true] the rank and the leading axis of the
    input are free: a vector of [in_features] entries gives an output of
    shape [[E, out_features]], and an input whose leading axis has size [E]
    is an ordinary batch: every member is applied to every one of its
    slices. *)
Theorem shared_input_any_rank (l : EnsembleLinear) (g : generator)
  (x : rtensor) (batch : list nat) :
  layer_inv l -> share_input l = true -> wf x ->
  shape x = batch ++ [dim (in_features l)] ->
  exists y,
    fst (forward x (l, g)) = Ok y /\
    shape y = dim (ensemble_size l) :: batch ++ [dim (out_features l)] /\
    (batch = [] ->
     shape y = [dim (ensemble_size l); dim (out_features l)]) /\
    (forall rest, batch = dim (ensemble_size l) :: rest ->
       shape y
       = dim (ensemble_size l) :: dim (ensemble_size l)
           :: rest ++ [dim (out_features l)] /\
       forall e e' bi k,
         (e < dim (ensemble_size l))%nat ->
         (e' < dim (ensemble_size l))%nat ->
         in_range rest bi = true -> (k < dim (out_features l))%nat ->
         at_ y (e :: e' :: bi ++ [k])
         = rsum (dim (in_features l)) (fun j =>
             at_ x (e' :: bi ++ [j]) * at_ (weight l) [j; k; e])
           + at_ (bias l) [k; e]).
Proof.
  intros Hinv Hshare _ Hx.
  destruct (forward_shared_gen l g x batch _ _ Hinv Hshare Hx
              (broadcast_dim_same _))
    as (y & Hrun & Hy & _ & Hat).
  exists y. rewrite Hrun. split; [reflexivity|]. split; [assumption|].
  split.
  - intros ->. assumption.
  - intros rest ->. split; [assumption|].
    intros e e' bi k He He' Hbi Hk.
    change (e :: e' :: bi ++ [k]) with (e :: (e' :: bi) ++ [k]).
    rewrite (Hat e (e' :: bi) k He) by
      (assumption || (simpl; apply Nat.ltb_lt in He'; now rewrite He', Hbi)).
    f_equal. apply rsum_ext. intros j Hj. now rewrite bidx_small.
Qed.

Lemma shared_input_any_rank_witness :
  layer_inv (layer_3_1_2 true) /\ wf x_2_3 /\
  exists y,
    fst (forward x_2_3 (layer_3_1_2 true, gen0)) = Ok y /\
    shape y = [2; 2; 1]%nat.
Proof.
  assert (Hinv : layer_inv (layer_3_1_2 true))
    by (repeat split; simpl; lia).
  assert (Hwf : wf x_2_3) by reflexivity.
  split; [exact Hinv|]. split; [exact Hwf|].
  destruct (shared_input_any_rank (layer_3_1_2 true) gen0 x_2_3 [2%nat]
              Hinv eq_refl Hwf eq_refl) as (y & Hrun & Hy & _).
  exists y. split; assumption.
Defined.

(** C6, as the code has it.  [forward] raises, and returns no output,
    whenever the trailing dimension of the input and [in_features] differ
    and neither is 1, or, with [share_input = false], whenever the leading
    dimension of the input and [ensemble_size] differ and neither is 1.  The
    layer and the generator are left as they were. *)
Theorem shape_mismatch_raises (l : EnsembleLinear) (g : generator)
  (x : rtensor) :
  layer_inv l ->
  incompatible (last (shape x) 0%nat) (dim (in_features l)) \/
  (share_input l = false /\
   incompatible (hd 0%nat (shape x)) (dim (ensemble_size l))) ->
  forward x (l, g) = (Raise RuntimeError, (l, g)).
Proof.
  intros (_ & _ & _ & Hw & _) Hbad. rewrite forward_run. f_equal.
  unfold einsum_shared, einsum_member. rewrite Hw.
  destruct (shape x) as [|a rest] eqn:Hx.
  { simpl. now destruct (share_input l). }
  destruct (share_input l) eqn:Hshare.
  - destruct Hbad as [(H1 & H2 & H3)|[Hf _]]; [|discriminate].
    rewrite <- Hx in *.
    assert (Hne : shape x <> []) by (rewrite Hx; discriminate).
    rewrite (app_removelast_last 0%nat Hne), split_last_app.
    now rewrite (broadcast_dim_none _ _ H1 H2 H3).
  - destruct rest as [|a' rest']; [reflexivity|].
    assert (Hne : a' :: rest' <> []) by discriminate.
    rewrite (app_removelast_last 0%nat Hne), split_last_app.
    destruct Hbad as [(H1 & H2 & H3)|[_ (H1 & H2 & H3)]].
    + change (last (a :: a' :: rest') 0%nat)
        with (last (a' :: rest') 0%nat) in H1, H2.
      rewrite (broadcast_dim_none _ _ H1 H2 H3).
      now destruct (broadcast_dim a (dim (ensemble_size l))).
    + simpl in H1, H2. now rewrite (broadcast_dim_none _ _ H1 H2 H3).
Qed.

Lemma shape_mismatch_raises_witness :
  layer_inv (layer_3_1_2 true) /\
  incompatible (last (shape x_5) 0%nat)
    (dim (in_features (layer_3_1_2 true))) /\
  forward x_5 (layer_3_1_2 true, gen0)
  = (Raise RuntimeError, (layer_3_1_2 true, gen0)).
Proof.
  assert (Hinv : layer_inv (layer_3_1_2 true))
    by (repeat split; simpl; lia).
  assert (Hbad : incompatible (last (shape x_5) 0%nat)
                   (dim (in_features (layer_3_1_2 true))))
    by (repeat split; simpl; lia).
  split; [exact Hinv|]. split; [exact Hbad|].
  exact (shape_mismatch_raises (layer_3_1_2 true) gen0 x_5 Hinv
           (or_introl Hbad)).
Defined.

(** C6, as stated, fails on an axis of size 1.  A layer with
    [in_features = 1] accepts a vector of three features, and a layer with
    [share_input = false] and [E = 2] accepts an input whose leading
    dimension is 1: einsum broadcasts the axis instead of raising. *)
Lemma singleton_axis_is_broadcast :
  (layer_inv (layer_1_1_1 true) /\
   last (shape x_3) 0%nat <> dim (in_features (layer_1_1_1 true)) /\
   fst (forward x_3 (layer_1_1_1 true, gen0))
   = Ok (Tensor [1; 1]%nat [22])) /\
  (layer_inv (layer_3_1_2 false) /\
   hd 0%nat (shape x_1_3) <> dim (ensemble_size (layer_3_1_2 false)) /\
   fst (forward x_1_3 (layer_3_1_2 false, gen0))
   = Ok (Tensor [2; 1]%nat [1; 2])).
Proof.
  split; (split; [repeat split; simpl; lia|]); (split; [simpl; lia|]).
  - cbv -[Rplus Rmult IZR]. repeat f_equal; lra.
  - cbv -[Rplus Rmult IZR]. repeat f_equal; lra.
Qed.

(** C8. [forward] changes neither the layer nor the generator, and its
    result is determined by the input, [weight], [bias] and the sharing
    mode: a second call returns the same result, and so does a call on any
    layer holding the same parameters in the same mode. *)
Theorem transform_is_pure (l l' : EnsembleLinear) (g g' : generator)
  (x : rtensor) :
  weight l' = weight l -> bias l' = bias l ->
  share_input l' = share_input l ->
  snd (forward x (l, g)) = (l, g) /\
  fst (forward x (snd (forward x (l, g)))) = fst (forward x (l, g)) /\
  fst (forward x (l', g')) = fst (forward x (l, g)).
Proof.
  intros Hw Hb Hs. rewrite !forward_run. simpl.
  split; [reflexivity|]. split.
  - now rewrite forward_run.
  - now rewrite Hw, Hb, Hs.
Qed.

Lemma transform_is_pure_witness :
  snd (forward x_1_3 (layer_3_1_2 true, gen0)) = (layer_3_1_2 true, gen0) /\
  fst (forward x_1_3 (snd (forward x_1_3 (layer_3_1_2 true, gen0))))
  = fst (forward x_1_3 (layer_3_1_2 true, gen0)) /\
  fst (forward x_1_3 (layer_3_1_2 true, advance gen0 7))
  = fst (forward x_1_3 (layer_3_1_2 true, gen0)).
Proof.
  exact (transform_is_pure (layer_3_1_2 true) (layer_3_1_2 true) gen0
           (advance gen0 7) x_1_3 eq_refl eq_refl eq_refl).
Defined.

End Transform.

(** ** A layer through its calls *)

Module LifecycleFacts.

Import Tensor Torch Layer Spec.
Import TensorFacts TorchFacts ForwardFacts InitFacts.
Local Open Scope R_scope.

(** Construction raises on sizes outside [accepted_sizes], before any draw
    is taken from the generator. *)
Lemma init_rejects (i o e : pyobj) (share b : bool) (g : generator) :
  accepted_sizes i o e = false ->
  exists err, init i o e share b g = (Raise err, g).
Proof.
  intros Hacc.
  destruct i as [zi|]; [|exists TypeError; reflexivity].
  destruct o as [zo|]; [|exists TypeError; reflexivity].
  destruct e as [ze|];
    [|exists TypeError; unfold init, empty, zeros, size_arg; simpl;
      reflexivity].
  unfold init, empty, zeros.
  change [PyInt zi; PyInt zo; PyInt ze] with (map PyInt [zi; zo; ze]).
  change [PyInt zo; PyInt ze] with (map PyInt [zo; ze]).
  destruct (Z_lt_dec zi 0) as [Hi|Hi].
  { exists RuntimeError.
    rewrite size_arg_negative by (now apply Exists_cons_hd). reflexivity. }
  destruct (Z_lt_dec zo 0) as [Ho|Ho].
  { exists RuntimeError.
    rewrite size_arg_negative
      by (apply Exists_cons_tl; now apply Exists_cons_hd). reflexivity. }
  destruct (Z_lt_dec ze 0) as [He|He].
  { exists RuntimeError.
    rewrite size_arg_negative
      by (do 2 apply Exists_cons_tl; now apply Exists_cons_hd).
    reflexivity. }
  assert (zi = 0%Z) as ->.
  { simpl in Hacc.
    destruct (0 <? zi)%Z eqn:E1; [|apply Z.ltb_ge in E1; lia].
    destruct (0 <=? zo)%Z eqn:E2; [|apply Z.leb_gt in E2; lia].
    destruct (0 <=? ze)%Z eqn:E3; [|apply Z.leb_gt in E3; lia].
    discriminate. }
  exists ZeroDivisionError.
  rewrite !size_arg_ints by (repeat constructor; lia).
  rewrite if_const.
  unfold reset_parameters, bind, this, lift, math_sqrt, truediv; simpl.
  destruct (Req_dec_T (sqrt 0) 0) as [_|Hne]; [reflexivity|].
  exfalso. apply Hne, sqrt_0.
Qed.

(** A call leaves a bias that is not trainable as it is. *)
Lemma run_calls_keep_buffer (cs : list call)
  (s : EnsembleLinear * generator) :
  add_bias (fst s) = false ->
  add_bias (fst (run_calls cs s)) = false /\
  bias (fst (run_calls cs s)) = bias (fst s).
Proof.
  revert s. induction cs as [|c cs IH]; intros [l g] Hb; simpl in *.
  - now split.
  - assert (Hstep : add_bias (fst (run_call c (l, g))) = false /\
                    bias (fst (run_call c (l, g))) = bias l).
    { destruct c as [|x]; simpl.
      - now apply reset_parameters_keeps_buffer.
      - rewrite forward_run. simpl. now split. }
    destruct Hstep as [Hb' Hbias].
    destruct (IH _ Hb') as [IH1 IH2].
    split; [assumption|]. now rewrite IH2.
Qed.

Lemma at_zeros (sh idx : list nat) : at_ (full sh 0) idx = 0.
Proof. unfold at_, item, full; simpl. apply nth_repeat. Qed.

(** A layer whose bias is zero returns what a layer with the same weight
    and any bias returns, less the bias element added at each position, and
    raises exactly when that layer raises. *)
Lemma zero_bias_output (l0 l1 : EnsembleLinear) (g0 g1 : generator)
  (x : rtensor) :
  bias l0 = full (shape (bias l1)) 0 ->
  weight l1 = weight l0 -> share_input l1 = share_input l0 ->
  match fst (forward x (l1, g1)) with
  | Ok y1 =>
      exists y0,
        fst (forward x (l0, g0)) = Ok y0 /\ shape y0 = shape y1 /\
        forall idx, in_range (shape y1) idx = true ->
          at_ y0 idx = at_ y1 idx - bias_term l1 idx
  | Raise err => fst (forward x (l0, g0)) = Raise err
  end.
Proof.
  intros Hb Hw Hs. rewrite !forward_run. simpl. rewrite Hw, Hs.
  destruct (if share_input l0 then einsum_shared x (weight l0)
            else einsum_member x (weight l0)) as [r|]; [|reflexivity].
  unfold add. rewrite Hb. simpl shape.
  destruct (broadcast_shapes (shape r) (shape (bias l1))) as [rs|];
    [|reflexivity].
  unfold einsum_to_front. simpl shape.
  destruct (split_last rs) as [[rest b]|] eqn:Hsplit; [|reflexivity].
  eexists. split; [reflexivity|]. split; [reflexivity|].
  intros idx Hidx. simpl shape in Hidx.
  rewrite !at_tabulate by assumption.
  destruct idx as [|ib rr]; [discriminate|].
  assert (Hrs : rs = rest ++ [b]) by (now apply split_last_inv).
  assert (Hin : in_range rs (rr ++ [ib]) = true).
  { simpl in Hidx. apply andb_true_iff in Hidx as [Hib Hrr].
    rewrite Hrs. apply in_range_app; [assumption|].
    apply in_range_one. now apply Nat.ltb_lt. }
  rewrite !at_tabulate by assumption.
  rewrite at_zeros. unfold bias_term. simpl tl. simpl hd. lra.
Qed.

Lemma bias_term_at (l : EnsembleLinear) (e k : nat) (bi : list nat) :
  layer_inv l ->
  (e < dim (ensemble_size l))%nat -> (k < dim (out_features l))%nat ->
  bias_term l (e :: bi ++ [k]) = at_ (bias l) [k; e].
Proof.
  intros (_ & _ & _ & _ & _ & Hb & _) He Hk. unfold bias_term.
  rewrite Hb. simpl tl. simpl hd. rewrite <- app_assoc. simpl app.
  rewrite (bproject_suffix _ _ _ _ _ Hk). now rewrite bidx_small.
Qed.

End LifecycleFacts.

(** ** Construction and initialisation of the specification *)

Module Parameters.

Import Tensor Torch Layer Spec Examples.
Import TensorFacts TorchFacts ForwardFacts InitFacts LifecycleFacts.
Local Open Scope R_scope.

(** C3. For positive [in_features], [out_features] and [ensemble_size] and
    any [share_input] and [bias] flags, construction succeeds and [forward]
    on a correctly shaped input returns a tensor of shape
    [[E, ..., out_features]], in either sharing mode. *)
Theorem construct_then_transform (i o e : Z) (share b : bool)
  (g : generator) (x : rtensor) (batch : list nat) :
  (0 < i)%Z -> (0 < o)%Z -> (0 < e)%Z -> wf x ->
  shape x = (if share then batch ++ [dim i]
             else dim e :: batch ++ [dim i]) ->
  exists l g' y,
    init (PyInt i) (PyInt o) (PyInt e) share b g = (Ok l, g') /\
    fst (forward x (l, g')) = Ok y /\
    shape y = dim e :: batch ++ [dim o].
Proof.
  intros Hi Ho He _ Hx.
  destruct (init_ok i o e share b g Hi) as
    (l & g' & Hinit & E1 & E2 & E3 & E4 & _ & Hinv & _); try lia.
  rewrite <- E1, <- E2, <- E3 in *.
  destruct share.
  - destruct (forward_shared_gen l g' x batch _ _ Hinv E4 Hx
                (broadcast_dim_same _)) as (y & Hrun & Hy & _).
    exists l, g', y. rewrite Hrun. now repeat split.
  - destruct (forward_member_exact l g' x batch Hinv E4 Hx)
      as (y & Hrun & Hy & _).
    exists l, g', y. rewrite Hrun. now repeat split.
Qed.

Lemma construct_then_transform_witness :
  wf x_2_1_3 /\
  exists l g' y,
    init (PyInt 3) (PyInt 1) (PyInt 2) false true gen0 = (Ok l, g') /\
    fst (forward x_2_1_3 (l, g')) = Ok y /\
    shape y = [2; 1; 1]%nat.
Proof.
  split; [reflexivity|].
  apply (construct_then_transform 3 1 2 false true gen0 x_2_1_3 [1%nat]);
    try lia; reflexivity.
Defined.

(** C4. After construction, and after [reset_parameters] on any layer with
    a positive [in_features], every element of [weight], and of [bias] when
    it is trainable, lies in [[-1/sqrt(in_features), 1/sqrt(in_features)]];
    [reset_parameters] keeps the fields and the shapes of the layer, and the
    contents of a bias that is not trainable. *)
Theorem initialisation_bounds (i o e : Z) (share b : bool)
  (g : generator) (l : EnsembleLinear) (gl : generator) :
  (0 < i)%Z -> (0 <= o)%Z -> (0 <= e)%Z -> unit_draws g ->
  (0 < in_features l)%Z -> unit_draws gl ->
  (exists l1 g1,
     init (PyInt i) (PyInt o) (PyInt e) share b g = (Ok l1, g1) /\
     in_features l1 = i /\ add_bias l1 = b /\ bounded l1) /\
  (exists l' g',
     reset_parameters (l, gl) = (Ok tt, (l', g')) /\
     bounded l' /\ frame l l').
Proof.
  intros Hi Ho He Hg Hl Hgl. split.
  - destruct (init_ok i o e share b g Hi Ho He)
      as (l1 & g1 & Hinit & E1 & _ & _ & _ & E5 & _ & _ & Hbd).
    exists l1, g1. split; [assumption|]. split; [assumption|].
    split; [assumption|]. now apply Hbd.
  - destruct (reset_parameters_ok l gl Hl)
      as (l' & g' & Hrun & Hfr & _ & _ & Hbd).
    exists l', g'. split; [assumption|]. split; [|assumption].
    now apply Hbd.
Qed.

Lemma unit_draws_gen0 : unit_draws gen0.
Proof. intros p. simpl. lra. Qed.

Lemma initialisation_bounds_witness :
  unit_draws gen0 /\
  (exists l1 g1,
     init (PyInt 3) (PyInt 1) (PyInt 2) true true gen0 = (Ok l1, g1) /\
     in_features l1 = 3%Z /\ add_bias l1 = true /\ bounded l1) /\
  (exists l' g',
     reset_parameters (layer_3_1_2 true, gen0) = (Ok tt, (l', g')) /\
     bounded l' /\ frame (layer_3_1_2 true) l').
Proof.
  split; [exact unit_draws_gen0|].
  apply (initialisation_bounds 3 1 2 true true gen0 (layer_3_1_2 true) gen0);
    try exact unit_draws_gen0; simpl; lia.
Defined.

(** C5, as the code has it.  Construction raises whenever one of the three
    sizes is not an [int] or is negative, or [in_features] is zero; it
    succeeds, with a [weight] of shape [[in_features, out_features, E]] and
    a [bias] of shape [[out_features, E]], whenever [in_features] is a
    positive [int] and [out_features] and [ensemble_size] are non-negative
    [int]s, all three below [size_limit]. *)
Theorem construction_sizes (i o e : pyobj) (zi zo ze : Z) (share b : bool)
  (g : generator) :
  (accepted_sizes i o e = false ->
   exists err, init i o e share b g = (Raise err, g)) /\
  ((0 < zi < size_limit)%Z -> (0 <= zo < size_limit)%Z ->
   (0 <= ze < size_limit)%Z ->
   exists l g',
     init (PyInt zi) (PyInt zo) (PyInt ze) share b g = (Ok l, g') /\
     shape (weight l) = [dim zi; dim zo; dim ze] /\
     shape (bias l) = [dim zo; dim ze]).
Proof.
  split.
  - apply init_rejects.
  - intros [Hi _] [Ho _] [He _].
    destruct (init_ok zi zo ze share b g Hi Ho He)
      as (l & g' & Hinit & E1 & E2 & E3 & _ & _ & Hinv & _).
    destruct Hinv as (_ & _ & _ & Hw & _ & Hb & _).
    rewrite E1, E2, E3 in *.
    exists l, g'. now repeat split.
Qed.

Lemma construction_sizes_witness :
  (exists err,
     init (PyInt 0) (PyInt 1) (PyFloat 2) true true gen0 = (Raise err, gen0))
  /\
  (exists l g',
     init (PyInt 3) (PyInt 1) (PyInt 2) true true gen0 = (Ok l, g') /\
     shape (weight l) = [3; 1; 2]%nat /\ shape (bias l) = [1; 2]%nat).
Proof.
  destruct (construction_sizes (PyInt 0) (PyInt 1) (PyFloat 2) 3 1 2
              true true gen0) as [Hbad Hgood].
  split.
  - apply Hbad. reflexivity.
  - apply Hgood; unfold size_limit; lia.
Defined.

(** C5, as stated, fails on a size of zero: with [out_features = 0], or
    with [ensemble_size = 0], construction succeeds and allocates empty
    tensors. *)
Lemma zero_size_is_accepted :
  positive_int (PyInt 0) = false /\
  (exists l g',
     init (PyInt 3) (PyInt 0) (PyInt 2) true true gen0 = (Ok l, g') /\
     shape (weight l) = [3; 0; 2]%nat) /\
  (exists l g',
     init (PyInt 3) (PyInt 1) (PyInt 0) true true gen0 = (Ok l, g') /\
     shape (weight l) = [3; 1; 0]%nat).
Proof.
  split; [reflexivity|]. split.
  - destruct (init_ok 3 0 2 true true gen0)
      as (l & g' & Hinit & E1 & E2 & E3 & _ & _ & Hinv & _); try lia.
    destruct Hinv as (_ & _ & _ & Hw & _).
    rewrite E1, E2, E3 in Hw. now exists l, g'.
  - destruct (init_ok 3 1 0 true true gen0)
      as (l & g' & Hinit & E1 & E2 & E3 & _ & _ & Hinv & _); try lia.
    destruct Hinv as (_ & _ & _ & Hw & _).
    rewrite E1, E2, E3 in Hw. now exists l, g'.
Qed.

(** C7. A layer constructed with [bias = False] holds an all-zero bias of
    shape [[out_features, E]]; no sequence of [reset_parameters] and
    [forward] calls changes it; and on every input the layer returns what a
    layer with the same weight and a bias returns, less the bias element
    added at each position (and raises exactly when that layer raises). *)
Theorem buffer_bias_invariant (i o e : Z) (share : bool) (g g2 g3 : generator)
  (cs : list call) (l1 : EnsembleLinear) (x : rtensor) :
  (0 < i)%Z -> (0 <= o)%Z -> (0 <= e)%Z ->
  exists l g1,
    init (PyInt i) (PyInt o) (PyInt e) share false g = (Ok l, g1) /\
    bias l = full [dim o; dim e] 0 /\
    bias (fst (run_calls cs (l, g2))) = full [dim o; dim e] 0 /\
    (layer_inv l1 ->
     out_features l1 = o -> ensemble_size l1 = e ->
     weight l1 = weight (fst (run_calls cs (l, g2))) ->
     share_input l1 = share_input (fst (run_calls cs (l, g2))) ->
     (forall ee k bi,
        (ee < dim e)%nat -> (k < dim o)%nat ->
        bias_term l1 (ee :: bi ++ [k]) = at_ (bias l1) [k; ee]) /\
     match fst (forward x (l1, g3)) with
     | Ok y1 =>
         exists y0,
           fst (forward x (run_calls cs (l, g2))) = Ok y0 /\
           shape y0 = shape y1 /\
           forall idx, in_range (shape y1) idx = true ->
             at_ y0 idx = at_ y1 idx - bias_term l1 idx
     | Raise err => fst (forward x (run_calls cs (l, g2))) = Raise err
     end).
Proof.
  intros Hi Ho He.
  destruct (init_ok i o e share false g Hi Ho He)
    as (l & g1 & Hinit & _ & _ & _ & _ & Hb & _ & Hzero & _).
  specialize (Hzero eq_refl).
  destruct (run_calls_keep_buffer cs (l, g2) Hb) as [_ Hkeep].
  simpl in Hkeep.
  exists l, g1. split; [assumption|]. split; [assumption|].
  split; [now rewrite Hkeep|].
  intros Hinv1 E2 E3 Hw Hs. split.
  - intros ee k bi Hee Hk. apply bias_term_at; try assumption.
    + now rewrite E3.
    + now rewrite E2.
  - destruct (run_calls cs (l, g2)) as [lc gc] eqn:Hrun. simpl in *.
    apply zero_bias_output; try assumption.
    destruct Hinv1 as (_ & _ & _ & _ & _ & Hb1 & _).
    now rewrite Hkeep, Hzero, Hb1, E2, E3.
Qed.

Lemma buffer_bias_invariant_witness :
  layer_inv (layer_3_1_2 true) /\
  exists l g1,
    init (PyInt 3) (PyInt 1) (PyInt 2) true false gen0 = (Ok l, g1) /\
    bias l = full [1; 2]%nat 0 /\
    bias (fst (run_calls [Transform x_1_3; Reset; Transform x_5]
                 (l, advance gen0 9)))
    = full [1; 2]%nat 0.
Proof.
  split; [repeat split; simpl; lia|].
  destruct (buffer_bias_invariant 3 1 2 true gen0 (advance gen0 9) gen0
              [Transform x_1_3; Reset; Transform x_5] (layer_3_1_2 true)
              x_1_3)
    as (l & g1 & Hinit & Hb & Hkeep & _); try lia.
  exists l, g1. repeat split; assumption.
Defined.

End Parameters.

(** ** The generic initialiser *)

Module WeightInitFacts.

Import Tensor Torch Layer Spec Examples.
Import TensorFacts TorchFacts.
Local Open Scope R_scope.

(** *** Writing through a member view *)

Lemma at_set_last_hit (w s : rtensor) (n k e i j kk : nat) :
  shape w = [n; k; e] ->
  (j < n)%nat -> (kk < k)%nat -> (i < e)%nat ->
  at_ (set_last 0 w i s) [j; kk; i] = at_ s [j; kk].
Proof.
  intros Hw Hj Hk Hi. unfold set_last. rewrite Hw.
  rewrite at_tabulate.
  - simpl. now rewrite Nat.eqb_refl.
  - simpl. apply Nat.ltb_lt in Hj, Hk, Hi. now rewrite Hj, Hk, Hi.
Qed.

Lemma at_set_last_miss (w s : rtensor) (n k e i i' j kk : nat) :
  shape w = [n; k; e] ->
  (j < n)%nat -> (kk < k)%nat -> (i' < e)%nat -> i' <> i ->
  at_ (set_last 0 w i s) [j; kk; i'] = at_ w [j; kk; i'].
Proof.
  intros Hw Hj Hk Hi Hne. unfold set_last. rewrite Hw.
  rewrite at_tabulate.
  - simpl. apply Nat.eqb_neq in Hne. now rewrite Hne.
  - simpl. apply Nat.ltb_lt in Hj, Hk, Hi. now rewrite Hj, Hk, Hi.
Qed.

(** *** [orthogonal_] on a matrix *)

Lemma orthogonal_matrix (t : rtensor) (gain : R) (g : generator)
  (n k : nat) :
  shape t = [n; k] ->
  semi_orthogonal n k (ortho_draw g (pos g) n k) ->
  exists s g',
    orthogonal_ t gain g = (Ok s, g') /\
    unit_draw g' = unit_draw g /\ ortho_draw g' = ortho_draw g /\
    forall j kk, (j < n)%nat -> (kk < k)%nat ->
      at_ s [j; kk] = at_ (ortho_draw g (pos g) n k) [j; kk] * gain.
Proof.
  intros Ht (Hq & _ & _). unfold orthogonal_. rewrite Ht.
  destruct (numel [n; k] =? 0) eqn:E.
  - apply Nat.eqb_eq in E. simpl in E.
    exists t, g. repeat split. intros j kk Hj Hk. nia.
  - apply Nat.eqb_neq in E. simpl in E.
    assert (Hn : n <> 0%nat) by nia.
    assert (Hcols : (numel [n; k] / n)%nat = k).
    { simpl. rewrite Nat.mul_1_r, Nat.mul_comm. now apply Nat.div_mul. }
    rewrite Hcols.
    eexists. eexists. split; [reflexivity|]. repeat split.
    intros j kk Hj Hk.
    rewrite at_tabulate by (now apply in_range_two).
    unfold at_, item. now rewrite Hq.
Qed.

(** *** The loop over the members *)

Lemma init_members_ok (gain : R) (n k e : nat) (members : list nat) :
  forall (l : EnsembleLinear) (g : generator),
    shape (weight l) = [n; k; e] ->
    NoDup members -> (forall i, In i members -> (i < e)%nat) ->
    (forall p, semi_orthogonal n k (ortho_draw g p n k)) ->
    exists l' g',
      init_members members gain (l, g) = (Ok tt, (l', g')) /\
      in_features l' = in_features l /\
      out_features l' = out_features l /\
      ensemble_size l' = ensemble_size l /\
      share_input l' = share_input l /\ add_bias l' = add_bias l /\
      bias l' = bias l /\ shape (weight l') = [n; k; e] /\
      (forall i j kk,
         (j < n)%nat -> (kk < k)%nat -> (i < e)%nat -> ~ In i members ->
         at_ (weight l') [j; kk; i] = at_ (weight l) [j; kk; i]) /\
      (forall i, In i members ->
         exists q, semi_orthogonal n k q /\
           forall j kk, (j < n)%nat -> (kk < k)%nat ->
             at_ (weight l') [j; kk; i] = at_ q [j; kk] * gain).
Proof.
  induction members as [|i rest IH]; intros l g Hw Hnd Hlt Hq.
  - exists l, g. simpl. unfold ret. repeat split; try assumption.
    intros i [].
  - inversion Hnd as [|? ? Hnotin Hnd']; subst.
    assert (Hi : (i < e)%nat) by (apply Hlt; now left).
    destruct (orthogonal_matrix (select_last 0 (weight l) i) gain g n k)
      as (s & g1 & Hrun & Hu & Ho & Hs).
    { unfold select_last. now rewrite Hw. }
    { apply Hq. }
    destruct (IH (set_weight (set_last 0 (weight l) i s) l) g1)
      as (l' & g' & Hrest & E1 & E2 & E3 & E4 & E5 & E6 & E7 & Hkeep & Hnew).
    { simpl. unfold set_last. now rewrite Hw. }
    { assumption. }
    { intros i' Hi'. apply Hlt. now right. }
    { intros p. rewrite Ho. apply Hq. }
    exists l', g'. split.
    { simpl. unfold bind, this, draw, update. simpl. rewrite Hrun. simpl.
      exact Hrest. }
    simpl in *. repeat (split; [assumption|]). split.
    + intros i' j kk Hj Hk Hi' Hnot.
      rewrite Hkeep by (try assumption; intros Hin; apply Hnot; now right).
      apply at_set_last_miss with (n := n) (k := k) (e := e);
        try assumption.
      intros ->. apply Hnot. now left.
    + intros i' [<-|Hin].
      * exists (ortho_draw g (pos g) n k). split; [apply Hq|].
        intros j kk Hj Hk.
        rewrite Hkeep by assumption.
        rewrite at_set_last_hit with (n := n) (k := k) (e := e)
          by assumption.
        now apply Hs.
      * now apply Hnew.
Qed.

(** *** The branch for ordinary linear modules *)

Lemma weight_init_linear (m : Linear) (g : generator) (gain : R)
  (rows cols : nat) :
  shape (lin_weight m) = [rows; cols] -> ortho_draws g ->
  exists m' g' q,
    weight_init gain (LinearModule m, g)
    = (Ok tt, (LinearModule m', g')) /\
    semi_orthogonal rows cols q /\
    (forall j k, (j < rows)%nat -> (k < cols)%nat ->
       at_ (lin_weight m') [j; k] = at_ q [j; k] * gain) /\
    lin_bias m' = option_map (fun b => full (shape b) 0) (lin_bias m).
Proof.
  intros Hw Hq.
  destruct (orthogonal_matrix (lin_weight m) gain g rows cols Hw (Hq _ _ _))
    as (s & g' & Hrun & _ & _ & Hs).
  unfold weight_init, on_variant, init_linear, bind, this, draw, update, ret.
  simpl. rewrite Hrun. simpl.
  destruct (lin_bias m) as [b|]; simpl.
  - eexists. exists g', (ortho_draw g (pos g) rows cols).
    split; [reflexivity|]. split; [apply Hq|]. split; [exact Hs|].
    reflexivity.
  - eexists. exists g', (ortho_draw g (pos g) rows cols).
    split; [reflexivity|]. split; [apply Hq|]. split; [exact Hs|].
    reflexivity.
Qed.

(** *** The rectangular identity is (semi-)orthogonal *)

Lemma rsum_delta (a n : nat) (f : nat -> R) :
  (a < n)%nat -> rsum n (fun j => delta a j * f j) = f a.
Proof.
  intros Ha. unfold rsum.
  assert (Hgen : forall l, NoDup l ->
    fold_right (fun j acc => delta a j * f j + acc) 0 l
    = if in_dec Nat.eq_dec a l then f a else 0).
  { induction l as [|j l IH]; intros Hnd; simpl; [reflexivity|].
    inversion Hnd as [|? ? Hnotin Hnd']; subst.
    rewrite (IH Hnd'). unfold delta.
    destruct (Nat.eq_dec j a) as [->|Hne].
    - rewrite Nat.eqb_refl.
      destruct (in_dec Nat.eq_dec a l); [contradiction|]. lra.
    - assert (E : (a =? j) = false) by (apply Nat.eqb_neq; congruence).
      rewrite E. destruct (in_dec Nat.eq_dec a l); lra. }
  rewrite (Hgen _ (seq_NoDup n 0)).
  destruct (in_dec Nat.eq_dec a (seq 0 n)) as [_|Hno]; [reflexivity|].
  exfalso. apply Hno, in_seq. lia.
Qed.

Lemma delta_sym (a b : nat) : delta a b = delta b a.
Proof. unfold delta. now rewrite Nat.eqb_sym. Qed.

Lemma ortho_draws_gen0 : ortho_draws gen0.
Proof.
  intros p rows cols. simpl. split; [reflexivity|].
  split; [apply wf_tabulate|].
  destruct (rows <? cols) eqn:E.
  - apply Nat.ltb_lt in E. intros a b Ha Hb.
    rewrite (rsum_ext cols _ (fun k => delta a k * delta b k)).
    + rewrite rsum_delta by lia. apply delta_sym.
    + intros k Hk. now rewrite !at_tabulate by (now apply in_range_two).
  - apply Nat.ltb_ge in E. intros a b Ha Hb.
    rewrite (rsum_ext rows _ (fun j => delta a j * delta j b)).
    + rewrite rsum_delta by lia. reflexivity.
    + intros j Hj. rewrite !at_tabulate by (now apply in_range_two).
      simpl. now rewrite (delta_sym j a).
Qed.

End WeightInitFacts.

(** ** The initialiser dispatch of the specification *)

Module Dispatcher.

Import Tensor Torch Layer Spec Examples.
Import TensorFacts TorchFacts WeightInitFacts.
Local Open Scope R_scope.

(** C9, as the code has it.  Applied to an ensemble linear layer,
    [weight_init] does not call [reset_parameters]: it applies the rule of
    ordinary linear modules member by member.  Every slice
    [weight[:, :, i]] is overwritten with a (semi-)orthogonal matrix scaled
    by [gain], the bias is filled with zeros, and nothing else changes. *)
Theorem weight_init_ensemble (l : EnsembleLinear) (g : generator)
  (gain : R) :
  layer_inv l -> ortho_draws g ->
  exists l' g',
    weight_init gain (EnsembleModule l, g)
    = (Ok tt, (EnsembleModule l', g')) /\
    in_features l' = in_features l /\ out_features l' = out_features l /\
    ensemble_size l' = ensemble_size l /\
    share_input l' = share_input l /\ add_bias l' = add_bias l /\
    shape (weight l') = shape (weight l) /\
    (forall i, (i < dim (ensemble_size l))%nat ->
       exists q,
         semi_orthogonal (dim (in_features l)) (dim (out_features l)) q /\
         forall j k,
           (j < dim (in_features l))%nat ->
           (k < dim (out_features l))%nat ->
           at_ (weight l') [j; k; i] = at_ q [j; k] * gain) /\
    bias l' = full [dim (out_features l); dim (ensemble_size l)] 0.
Proof.
  intros (_ & _ & _ & Hw & _ & Hb & _) Hq.
  destruct (init_members_ok gain _ _ _
              (seq 0 (Z.to_nat (ensemble_size l))) l g Hw)
    as (l1 & g1 & Hrun & E1 & E2 & E3 & E4 & E5 & E6 & E7 & _ & Hnew).
  { apply seq_NoDup. }
  { intros i Hi. apply in_seq in Hi. unfold dim. lia. }
  { intros p. apply Hq. }
  exists (set_bias (fill_ (bias l1) 0) l1), g1. split.
  { unfold weight_init, on_variant, init_ensemble, bind, this, update.
    simpl. rewrite Hrun. reflexivity. }
  simpl. repeat (split; [assumption|]).
  split; [now rewrite Hw|]. split.
  - intros i Hi. apply Hnew. apply in_seq. unfold dim in Hi. lia.
  - unfold fill_. now rewrite E6, Hb.
Qed.

Lemma weight_init_ensemble_witness :
  layer_inv (layer_3_1_2 true) /\ ortho_draws gen0 /\
  exists l' g',
    weight_init 1 (EnsembleModule (layer_3_1_2 true), gen0)
    = (Ok tt, (EnsembleModule l', g')) /\
    shape (weight l') = [3; 1; 2]%nat /\
    bias l' = full [1; 2]%nat 0.
Proof.
  assert (Hinv : layer_inv (layer_3_1_2 true))
    by (repeat split; simpl; lia).
  split; [exact Hinv|]. split; [exact ortho_draws_gen0|].
  destruct (weight_init_ensemble (layer_3_1_2 true) gen0 1 Hinv
              ortho_draws_gen0)
    as (l' & g' & Hrun & _ & _ & _ & _ & _ & Hsh & _ & Hb).
  exists l', g'. repeat split; assumption.
Defined.

(** C9, as stated, fails: after [weight_init] on a layer with
    [in_features = 4], [out_features = 1] and [E = 1], with the generator
    handing out the unit column [[1, 0, 0, 0]], the weight holds 1, which
    is outside [[-1/2, 1/2]]. *)
Lemma weight_init_is_not_fan_in_scaled :
  layer_inv layer_4_1_1 /\ ortho_draws gen0 /\ unit_draws gen0 /\
  exists l' g',
    weight_init 1 (EnsembleModule layer_4_1_1, gen0)
    = (Ok tt, (EnsembleModule l', g')) /\
    data (weight l') = [1 * 1; 0 * 1; 0 * 1; 0 * 1] /\
    fan_in_bound l' = / 2 /\
    ~ bounded l'.
Proof.
  split; [repeat split; simpl; lia|].
  split; [exact ortho_draws_gen0|].
  split; [intros p; simpl; lra|].
  eexists. eexists. split; [reflexivity|].
  assert (Hfan : / sqrt 4 = / 2).
  { f_equal. replace 4 with (2 * 2) by lra. apply sqrt_square. lra. }
  split; [reflexivity|]. split; [exact Hfan|].
  intros [Hbad _]. unfold fan_in_bound in Hbad. simpl in_features in Hbad.
  rewrite Hfan in Hbad.
  assert (Hfirst : within (/ 2) (1 * 1)).
  { refine (Forall_inv (l := [0 * 1; 0 * 1; 0 * 1]) _). exact Hbad. }
  unfold within in Hfirst. lra.
Qed.

End Dispatcher.

(** * Further properties of the code *)

From Stdlib Require Import FinFun.

(** ** Dense tensors are determined by their elements *)

Module TensorEquality.

Import Tensor Torch TensorFacts TorchFacts.
Local Open Scope R_scope.

Lemma NoDup_indices (sh : list nat) : NoDup (indices sh).
Proof.
  induction sh as [|m sh IH]; simpl.
  - constructor; [intros []|constructor].
  - generalize 0%nat as s. induction m as [|m IHm]; intros s; simpl.
    + constructor.
    + apply NoDup_app.
      * apply Injective_map_NoDup; [|assumption].
        intros x y Hxy. now inversion Hxy.
      * apply IHm.
      * intros x Hx Hx'. apply in_map_iff in Hx as (x' & <- & _).
        apply in_flat_map in Hx' as (j & Hj & Hx').
        apply in_map_iff in Hx' as (y & Hy & _).
        apply in_seq in Hj. inversion Hy. lia.
Qed.

(** Every storage position is the offset of an index in range. *)
Lemma offset_onto (sh : list nat) (n : nat) :
  (n < numel sh)%nat ->
  exists idx, in_range sh idx = true /\ offset sh idx = n.
Proof.
  intros Hn.
  destruct (nth_error (indices sh) n) as [idx|] eqn:E.
  - assert (Hr : in_range sh idx = true)
      by (apply in_indices; eapply nth_error_In; eassumption).
    exists idx. split; [assumption|].
    pose proof (nth_error_indices _ _ Hr) as E'.
    apply (proj1 (NoDup_nth_error (indices sh)) (NoDup_indices sh)
             (offset sh idx) n).
    + rewrite length_indices. now apply offset_lt.
    + now rewrite E, E'.
  - apply nth_error_None in E. rewrite length_indices in E. lia.
Qed.

Lemma tensor_ext (a b : rtensor) :
  wf a -> wf b -> shape a = shape b ->
  (forall idx, in_range (shape a) idx = true -> at_ a idx = at_ b idx) ->
  a = b.
Proof.
  destruct a as [sh da], b as [sh' db]. unfold wf; simpl.
  intros Ha Hb <- Hat. f_equal.
  apply nth_ext with (d := 0) (d' := 0); [congruence|].
  intros n Hn. rewrite Ha in Hn.
  destruct (offset_onto sh n Hn) as (idx & Hr & <-).
  exact (Hat idx Hr).
Qed.

End TensorEquality.

(** ** The transform, mode by mode *)

Module ForwardMore.

Import Tensor Torch Layer Spec Derived.
Import TensorFacts TorchFacts ForwardFacts TensorEquality.
Local Open Scope R_scope.

Lemma in_range_output (n m : nat) (batch idx : list nat) :
  in_range (n :: batch ++ [m]) idx = true ->
  exists e bi k,
    idx = e :: bi ++ [k] /\ (e < n)%nat /\ in_range batch bi = true /\
    (k < m)%nat.
Proof.
  destruct idx as [|e rest]; [discriminate|]. simpl.
  intros H. apply andb_true_iff in H as [He H]. apply Nat.ltb_lt in He.
  apply in_range_app_inv in H as (bi & i2 & -> & Hbi & Hi2).
  apply in_range_one_inv in Hi2 as (k & -> & Hk).
  now exists e, bi, k.
Qed.

Lemma broadcast_dim_one_l (b : nat) : broadcast_dim 1 b = Some b.
Proof. reflexivity. Qed.

Lemma broadcast_dim_one_r (a : nat) : broadcast_dim a 1 = Some a.
Proof.
  unfold broadcast_dim. destruct (a =? 1) eqn:E; [|reflexivity].
  apply Nat.eqb_eq in E. now subst.
Qed.

Lemma rsum_scale (n : nat) (f : nat -> R) (c : R) :
  rsum n (fun j => f j * c) = rsum n f * c.
Proof.
  unfold rsum. induction (seq 0 n) as [|j l IH]; simpl; [lra|].
  rewrite IH. lra.
Qed.

Lemma rsum_scale_l (n : nat) (f : nat -> R) (c : R) :
  rsum n (fun j => c * f j) = c * rsum n f.
Proof.
  unfold rsum. induction (seq 0 n) as [|j l IH]; simpl; [lra|].
  rewrite IH. lra.
Qed.

Lemma rsum_plus (n : nat) (f h : nat -> R) :
  rsum n (fun j => f j + h j) = rsum n f + rsum n h.
Proof.
  unfold rsum. induction (seq 0 n) as [|j l IH]; simpl; [lra|].
  rewrite IH. lra.
Qed.

(** Shared input with the sizes the layer expects. *)
Lemma forward_shared_exact (l : EnsembleLinear) (g : generator)
  (x : rtensor) (batch : list nat) :
  layer_inv l -> share_input l = true ->
  shape x = batch ++ [dim (in_features l)] ->
  exists y,
    forward x (l, g) = (Ok y, (l, g)) /\
    shape y = dim (ensemble_size l) :: batch ++ [dim (out_features l)] /\
    wf y /\
    forall e bi k,
      (e < dim (ensemble_size l))%nat -> in_range batch bi = true ->
      (k < dim (out_features l))%nat ->
      at_ y (e :: bi ++ [k])
      = rsum (dim (in_features l)) (fun j =>
          at_ x (bi ++ [j]) * at_ (weight l) [j; k; e])
        + at_ (bias l) [k; e].
Proof.
  intros Hinv Hshare Hx.
  destruct (forward_shared_gen l g x batch _ _ Hinv Hshare Hx
              (broadcast_dim_same _))
    as (y & Hrun & Hy & Hwf & Hat).
  exists y. repeat (split; [assumption|]).
  intros e bi k He Hbi Hk. rewrite Hat by assumption. f_equal.
  apply rsum_ext. intros j Hj. now rewrite bidx_small.
Qed.

(** One input slice per member, with the sizes the layer expects. *)
Lemma forward_member_exact_wf (l : EnsembleLinear) (g : generator)
  (x : rtensor) (batch : list nat) :
  layer_inv l -> share_input l = false ->
  shape x = dim (ensemble_size l) :: batch ++ [dim (in_features l)] ->
  exists y,
    forward x (l, g) = (Ok y, (l, g)) /\
    shape y = dim (ensemble_size l) :: batch ++ [dim (out_features l)] /\
    wf y /\
    forall e bi k,
      (e < dim (ensemble_size l))%nat -> in_range batch bi = true ->
      (k < dim (out_features l))%nat ->
      at_ y (e :: bi ++ [k])
      = rsum (dim (in_features l)) (fun j =>
          at_ x (e :: bi ++ [j]) * at_ (weight l) [j; k; e])
        + at_ (bias l) [k; e].
Proof.
  intros Hinv Hshare Hx.
  destruct (forward_member_gen l g x batch _ _ _ _ Hinv Hshare Hx
              (broadcast_dim_same _) (broadcast_dim_same _))
    as (y & Hrun & Hy & Hwf & Hat).
  exists y. repeat (split; [assumption|]).
  intros e bi k He Hbi Hk. rewrite Hat by assumption.
  rewrite (bidx_small _ _ He). f_equal.
  apply rsum_ext. intros j Hj. now rewrite bidx_small.
Qed.

(** Two outputs of one shape that agree at every position [[e, ..., k]]
    are the same tensor. *)
Lemma output_ext (y y' : rtensor) (n m : nat) (batch : list nat) :
  wf y -> wf y' ->
  shape y = n :: batch ++ [m] -> shape y' = n :: batch ++ [m] ->
  (forall e bi k,
     (e < n)%nat -> in_range batch bi = true -> (k < m)%nat ->
     at_ y (e :: bi ++ [k]) = at_ y' (e :: bi ++ [k])) ->
  y = y'.
Proof.
  intros Hwf Hwf' Hy Hy' Hat.
  apply tensor_ext; try assumption; [congruence|].
  intros idx Hidx. rewrite Hy in Hidx.
  apply in_range_output in Hidx as (e & bi & k & -> & He & Hbi & Hk).
  now apply Hat.
Qed.

Lemma at_expand_front (n : nat) (x : rtensor) (e : nat) (idx : list nat) :
  (e < n)%nat -> in_range (shape x) idx = true ->
  at_ (expand_front n x) (e :: idx) = at_ x idx.
Proof.
  intros He Hidx. unfold expand_front.
  rewrite at_tabulate; [reflexivity|].
  simpl. apply Nat.ltb_lt in He. now rewrite He.
Qed.

Lemma at_select_first (x : rtensor) (n : nat) (rest idx : list nat)
  (e : nat) :
  shape x = n :: rest -> in_range rest idx = true ->
  at_ (select_first 0 x e) idx = at_ x (e :: idx).
Proof.
  intros Hx Hidx. unfold select_first. rewrite Hx. simpl tl.
  now rewrite at_tabulate.
Qed.

End ForwardMore.

(** ** The two sharing modes and the axes of size 1 *)

Module Modes.

Import Tensor Torch Layer Spec Derived Examples Cases.
Import TensorFacts TorchFacts ForwardFacts TensorEquality ForwardMore.
Local Open Scope R_scope.

(** X1. The two modes differ only in who supplies the copies of the input:
    with [share_input = true], [forward] on [x] returns exactly what the
    same layer with [share_input = false] returns on [E] copies of [x]
    stacked along a new leading axis. *)
Theorem shared_is_member_on_copies (l : EnsembleLinear) (g : generator)
  (x : rtensor) (batch : list nat) :
  layer_inv l -> share_input l = true ->
  shape x = batch ++ [dim (in_features l)] ->
  exists y,
    fst (forward x (l, g)) = Ok y /\
    fst (forward (expand_front (dim (ensemble_size l)) x)
           (with_share false l, g)) = Ok y.
Proof.
  intros Hinv Hshare Hx.
  destruct (forward_shared_exact l g x batch Hinv Hshare Hx)
    as (y & Hrun & Hy & Hwf & Hat).
  destruct (forward_member_exact_wf (with_share false l) g
              (expand_front (dim (ensemble_size l)) x) batch Hinv eq_refl)
    as (y' & Hrun' & Hy' & Hwf' & Hat').
  { simpl. now rewrite Hx. }
  simpl in Hy', Hat'.
  exists y. rewrite Hrun, Hrun'. split; [reflexivity|]. simpl. f_equal.
  apply output_ext with (n := dim (ensemble_size l)) (batch := batch)
    (m := dim (out_features l)); try assumption.
  intros e bi k He Hbi Hk. rewrite Hat, Hat' by assumption. f_equal.
  apply rsum_ext. intros j Hj. f_equal.
  apply at_expand_front; [assumption|].
  rewrite Hx. apply in_range_app; [assumption | now apply in_range_one].
Qed.

Lemma shared_is_member_on_copies_witness :
  layer_inv (layer_3_1_2 true) /\
  exists y,
    fst (forward x_1_3 (layer_3_1_2 true, gen0)) = Ok y /\
    fst (forward (expand_front 2 x_1_3) (layer_3_1_2 false, gen0)) = Ok y.
Proof.
  assert (Hinv : layer_inv (layer_3_1_2 true))
    by (repeat split; simpl; lia).
  split; [exact Hinv|].
  exact (shared_is_member_on_copies (layer_3_1_2 true) gen0 x_1_3 [1%nat]
           Hinv eq_refl eq_refl).
Defined.

(** X2. With [share_input = false], an input whose leading axis has size 1
    is not rejected when [E > 1]: its only slice is given to every member,
    and [forward] returns what the layer in shared mode returns on that
    slice, with the full shape [[E, ..., out_features]]. *)
Theorem member_mode_shares_a_single_slice (l : EnsembleLinear)
  (g : generator) (x : rtensor) (batch : list nat) :
  layer_inv l -> share_input l = false ->
  shape x = 1%nat :: batch ++ [dim (in_features l)] ->
  exists y,
    fst (forward x (l, g)) = Ok y /\
    shape y = dim (ensemble_size l) :: batch ++ [dim (out_features l)] /\
    fst (forward (select_first 0 x 0) (with_share true l, g)) = Ok y.
Proof.
  intros Hinv Hshare Hx.
  destruct (forward_member_gen l g x batch _ _ _ _ Hinv Hshare Hx
              (broadcast_dim_one_l _) (broadcast_dim_same _))
    as (y & Hrun & Hy & Hwf & Hat).
  destruct (forward_shared_exact (with_share true l) g
              (select_first 0 x 0) batch Hinv eq_refl)
    as (y' & Hrun' & Hy' & Hwf' & Hat').
  { unfold select_first. now rewrite Hx. }
  simpl in Hy', Hat'.
  exists y. rewrite Hrun, Hrun'. split; [reflexivity|].
  split; [assumption|]. simpl. f_equal.
  apply output_ext with (n := dim (ensemble_size l)) (batch := batch)
    (m := dim (out_features l)); try assumption.
  intros e bi k He Hbi Hk. rewrite Hat, Hat' by assumption.
  rewrite (bidx_small _ _ He). f_equal.
  apply rsum_ext. intros j Hj. rewrite (bidx_small _ _ Hj). f_equal.
  change (bidx 1 e) with 0%nat.
  apply at_select_first with (n := 1%nat)
    (rest := batch ++ [dim (in_features l)]); [assumption|].
  apply in_range_app; [assumption | now apply in_range_one].
Qed.

Lemma member_mode_shares_a_single_slice_witness :
  layer_inv (layer_3_1_2 false) /\
  exists y,
    fst (forward x_1_1_3 (layer_3_1_2 false, gen0)) = Ok y /\
    shape y = [2; 1; 1]%nat /\
    fst (forward (select_first 0 x_1_1_3 0) (layer_3_1_2 true, gen0)) = Ok y.
Proof.
  assert (Hinv : layer_inv (layer_3_1_2 false))
    by (repeat split; simpl; lia).
  split; [exact Hinv|].
  exact (member_mode_shares_a_single_slice (layer_3_1_2 false) gen0 x_1_1_3
           [1%nat] Hinv eq_refl eq_refl).
Defined.

(** X3. With [share_input = false] and [E = 1], the leading axis of the
    input may have any size [n]: the single member is applied to each of
    the [n] slices and the output has shape [[n, ..., out_features]], not
    [[E, ..., out_features]]. *)
Theorem single_member_maps_every_slice (l : EnsembleLinear) (g : generator)
  (x : rtensor) (batch : list nat) (n : nat) :
  layer_inv l -> share_input l = false -> ensemble_size l = 1%Z ->
  shape x = n :: batch ++ [dim (in_features l)] ->
  exists y,
    fst (forward x (l, g)) = Ok y /\
    shape y = n :: batch ++ [dim (out_features l)] /\
    forall s bi k,
      (s < n)%nat -> in_range batch bi = true ->
      (k < dim (out_features l))%nat ->
      at_ y (s :: bi ++ [k])
      = rsum (dim (in_features l)) (fun j =>
          at_ x (s :: bi ++ [j]) * at_ (weight l) [j; k; 0%nat])
        + at_ (bias l) [k; 0%nat].
Proof.
  intros Hinv Hshare HE Hx.
  assert (HE' : dim (ensemble_size l) = 1%nat) by (now rewrite HE).
  destruct (forward_member_gen l g x batch n (dim (in_features l)) n
              (dim (in_features l)) Hinv Hshare Hx)
    as (y & Hrun & Hy & _ & Hat).
  { rewrite HE'. apply broadcast_dim_one_r. }
  { apply broadcast_dim_same. }
  exists y. rewrite Hrun. split; [reflexivity|]. split; [assumption|].
  intros s bi k Hs Hbi Hk. rewrite Hat by assumption.
  rewrite HE', (bidx_small _ _ Hs). f_equal.
  apply rsum_ext. intros j Hj. now rewrite (bidx_small _ _ Hj).
Qed.

Lemma single_member_maps_every_slice_witness :
  layer_inv (layer_1_1_1 false) /\
  exists y,
    fst (forward x_2_1 (layer_1_1_1 false, gen0)) = Ok y /\
    shape y = [2; 1]%nat.
Proof.
  assert (Hinv : layer_inv (layer_1_1_1 false))
    by (repeat split; simpl; lia).
  split; [exact Hinv|].
  destruct (single_member_maps_every_slice (layer_1_1_1 false) gen0 x_2_1
              [] 2 Hinv eq_refl eq_refl eq_refl) as (y & Hrun & Hy & _).
  exists y. split; assumption.
Defined.

(** X4. A layer with [in_features = 1] accepts, in shared mode, an input
    with any number [d] of trailing features: it adds the [d] features up
    and feeds the sum to every member. *)
Theorem one_feature_layer_sums_features (l : EnsembleLinear) (g : generator)
  (x : rtensor) (batch : list nat) (d : nat) :
  layer_inv l -> share_input l = true -> in_features l = 1%Z ->
  shape x = batch ++ [d] ->
  exists y,
    fst (forward x (l, g)) = Ok y /\
    shape y = dim (ensemble_size l) :: batch ++ [dim (out_features l)] /\
    forall e bi k,
      (e < dim (ensemble_size l))%nat -> in_range batch bi = true ->
      (k < dim (out_features l))%nat ->
      at_ y (e :: bi ++ [k])
      = rsum d (fun j => at_ x (bi ++ [j])) * at_ (weight l) [0%nat; k; e]
        + at_ (bias l) [k; e].
Proof.
  intros Hinv Hshare Hin Hx.
  assert (Hin' : dim (in_features l) = 1%nat) by (now rewrite Hin).
  destruct (forward_shared_gen l g x batch d d Hinv Hshare Hx)
    as (y & Hrun & Hy & _ & Hat).
  { rewrite Hin'. apply broadcast_dim_one_r. }
  exists y. rewrite Hrun. split; [reflexivity|]. split; [assumption|].
  intros e bi k He Hbi Hk. rewrite Hat by assumption. f_equal.
  rewrite <- rsum_scale. apply rsum_ext. intros j Hj.
  now rewrite Hin', (bidx_small _ _ Hj).
Qed.

Lemma one_feature_layer_sums_features_witness :
  layer_inv (layer_1_1_1 true) /\
  exists y,
    fst (forward x_3 (layer_1_1_1 true, gen0)) = Ok y /\
    shape y = [1; 1]%nat /\
    at_ y [0; 0]%nat
    = rsum 3 (fun j => at_ x_3 [j])
      * at_ (weight (layer_1_1_1 true)) [0; 0; 0]%nat
      + at_ (bias (layer_1_1_1 true)) [0; 0]%nat.
Proof.
  assert (Hinv : layer_inv (layer_1_1_1 true))
    by (repeat split; simpl; lia).
  split; [exact Hinv|].
  destruct (one_feature_layer_sums_features (layer_1_1_1 true) gen0 x_3
              [] 3 Hinv eq_refl eq_refl eq_refl) as (y & Hrun & Hy & Hat).
  exists y. split; [assumption|]. split; [assumption|].
  exact (Hat 0%nat [] 0%nat ltac:(simpl; lia) eq_refl ltac:(simpl; lia)).
Defined.

(** X5. An input with a single trailing feature is accepted, in shared
    mode, by a layer with any [in_features]: the feature is used for every
    input position, so each output is the feature times the sum of the
    member's weights for that output, plus the bias. *)
Theorem single_feature_input_is_repeated (l : EnsembleLinear)
  (g : generator) (x : rtensor) (batch : list nat) :
  layer_inv l -> share_input l = true ->
  shape x = batch ++ [1%nat] ->
  exists y,
    fst (forward x (l, g)) = Ok y /\
    shape y = dim (ensemble_size l) :: batch ++ [dim (out_features l)] /\
    forall e bi k,
      (e < dim (ensemble_size l))%nat -> in_range batch bi = true ->
      (k < dim (out_features l))%nat ->
      at_ y (e :: bi ++ [k])
      = at_ x (bi ++ [0%nat])
        * rsum (dim (in_features l)) (fun j => at_ (weight l) [j; k; e])
        + at_ (bias l) [k; e].
Proof.
  intros Hinv Hshare Hx.
  destruct (forward_shared_gen l g x batch 1 _ Hinv Hshare Hx
              (broadcast_dim_one_l _))
    as (y & Hrun & Hy & _ & Hat).
  exists y. rewrite Hrun. split; [reflexivity|]. split; [assumption|].
  intros e bi k He Hbi Hk. rewrite Hat by assumption. f_equal.
  rewrite <- rsum_scale_l. apply rsum_ext. intros j Hj.
  now rewrite (bidx_small _ _ Hj).
Qed.

Lemma single_feature_input_is_repeated_witness :
  layer_inv (layer_3_1_2 true) /\
  exists y,
    fst (forward x_2_1 (layer_3_1_2 true, gen0)) = Ok y /\
    shape y = [2; 2; 1]%nat.
Proof.
  assert (Hinv : layer_inv (layer_3_1_2 true))
    by (repeat split; simpl; lia).
  split; [exact Hinv|].
  destruct (single_feature_input_is_repeated (layer_3_1_2 true) gen0 x_2_1
              [2%nat] Hinv eq_refl eq_refl) as (y & Hrun & Hy & _).
  exists y. split; assumption.
Defined.

(** X6. [forward] raises on an input without axes, in either mode, and on
    an input with a single axis when [share_input = false]; the layer and
    the generator are left as they were. *)
Theorem too_few_axes_raise (l : EnsembleLinear) (g : generator)
  (x : rtensor) :
  length (shape x) = 0%nat \/
  (share_input l = false /\ length (shape x) = 1%nat) ->
  forward x (l, g) = (Raise RuntimeError, (l, g)).
Proof.
  intros Hrank. rewrite forward_run. f_equal.
  unfold einsum_shared, einsum_member.
  destruct Hrank as [H0|[Hshare H1]].
  - destruct (shape x); [|discriminate]. simpl.
    now destruct (share_input l).
  - rewrite Hshare.
    destruct (shape x) as [|a [|b rest]]; try discriminate.
    destruct (shape (weight l)) as [|? [|? [|? [|? ?]]]]; reflexivity.
Qed.

Lemma too_few_axes_raise_witness :
  forward x_scalar (layer_3_1_2 true, gen0)
  = (Raise RuntimeError, (layer_3_1_2 true, gen0)) /\
  forward x_3 (layer_3_1_2 false, gen0)
  = (Raise RuntimeError, (layer_3_1_2 false, gen0)).
Proof.
  split.
  - apply (too_few_axes_raise (layer_3_1_2 true) gen0 x_scalar).
    left. reflexivity.
  - apply (too_few_axes_raise (layer_3_1_2 false) gen0 x_3).
    right. split; reflexivity.
Defined.

End Modes.

(** ** The transform as an affine map *)

Module AffineFacts.

Import Tensor Torch Layer Spec Derived.
Import TensorFacts TorchFacts ForwardFacts TensorEquality ForwardMore.
Local Open Scope R_scope.

Lemma broadcast_rev_same (sh : list nat) : broadcast_rev sh sh = Some sh.
Proof.
  induction sh as [|a sh IH]; simpl; [reflexivity|].
  now rewrite broadcast_dim_same, IH.
Qed.

(** Addition of two tensors of one shape is elementwise. *)
Lemma add_same_shape (a b : rtensor) :
  shape a = shape b ->
  exists s,
    add a b = Ok s /\ shape s = shape a /\ wf s /\
    forall idx, in_range (shape a) idx = true ->
      at_ s idx = at_ a idx + at_ b idx.
Proof.
  intros Hab. unfold add, broadcast_shapes.
  rewrite <- Hab, broadcast_rev_same. simpl. rewrite rev_involutive.
  eexists. split; [reflexivity|]. split; [reflexivity|].
  split; [apply wf_tabulate|].
  intros idx Hidx. rewrite at_tabulate by assumption.
  unfold bproject. rewrite (in_range_length _ _ Hidx), Nat.sub_diag.
  simpl skipn. now rewrite (clamp_in_range _ _ Hidx).
Qed.

Lemma at_within (t : rtensor) (m : R) (idx : list nat) :
  wf t -> all_within m t -> in_range (shape t) idx = true ->
  within m (at_ t idx).
Proof.
  intros Hwf Hall Hidx. unfold at_, item.
  eapply Forall_forall; [exact Hall|].
  apply nth_In. rewrite Hwf. now apply offset_lt.
Qed.

Lemma all_within_intro (t : rtensor) (m : R) :
  wf t ->
  (forall idx, in_range (shape t) idx = true -> within m (at_ t idx)) ->
  all_within m t.
Proof.
  intros Hwf Hat. apply Forall_forall. intros v Hv.
  apply (In_nth _ _ 0) in Hv as (n & Hn & <-).
  rewrite Hwf in Hn.
  destruct (offset_onto (shape t) n Hn) as (idx & Hr & <-).
  exact (Hat idx Hr).
Qed.

Lemma rsum_abs_bound (n : nat) (f : nat -> R) (c : R) :
  (forall j, (j < n)%nat -> Rabs (f j) <= c) ->
  Rabs (rsum n f) <= INR n * c.
Proof.
  unfold rsum. intros H.
  assert (Hin : forall j, In j (seq 0 n) -> Rabs (f j) <= c)
    by (intros j Hj; apply H; apply in_seq in Hj; lia).
  rewrite <- (length_seq n 0) at 2.
  induction (seq 0 n) as [|j l IH].
  - simpl. rewrite Rabs_R0. lra.
  - simpl fold_right. change (length (j :: l)) with (S (length l)).
    rewrite S_INR.
    assert (H1 : Rabs (f j) <= c) by (apply Hin; now left).
    assert (H2 : Rabs (fold_right (fun j acc => f j + acc) 0 l)
                 <= INR (length l) * c)
      by (apply IH; intros i Hi; apply Hin; now right).
    pose proof (Rabs_triang (f j)
                  (fold_right (fun j acc => f j + acc) 0 l)).
    lra.
Qed.

Lemma within_abs (m v : R) : within m v <-> Rabs v <= m.
Proof.
  unfold within. split.
  - apply Rabs_le.
  - intros H. pose proof (Rle_abs v) as H1.
    pose proof (Rle_abs (- v)) as H2. rewrite Rabs_Ropp in H2. lra.
Qed.

(** The entries of the output in either mode, for an input of the shape
    the mode expects; [row e] is the leading index read in the input. *)
Lemma forward_entries (l : EnsembleLinear) (g : generator) (x : rtensor)
  (batch : list nat) :
  layer_inv l ->
  shape x = (if share_input l then batch ++ [dim (in_features l)]
             else dim (ensemble_size l) :: batch ++ [dim (in_features l)]) ->
  exists y,
    forward x (l, g) = (Ok y, (l, g)) /\
    shape y = dim (ensemble_size l) :: batch ++ [dim (out_features l)] /\
    wf y /\
    forall e bi k,
      (e < dim (ensemble_size l))%nat -> in_range batch bi = true ->
      (k < dim (out_features l))%nat ->
      at_ y (e :: bi ++ [k])
      = rsum (dim (in_features l)) (fun j =>
          at_ x ((if share_input l then [] else [e]) ++ bi ++ [j])
          * at_ (weight l) [j; k; e])
        + at_ (bias l) [k; e].
Proof.
  intros Hinv Hx. destruct (share_input l) eqn:Hshare.
  - now apply forward_shared_exact.
  - now apply forward_member_exact_wf.
Qed.

Lemma in_range_input (l : EnsembleLinear) (batch bi : list nat)
  (e j : nat) :
  (e < dim (ensemble_size l))%nat -> in_range batch bi = true ->
  (j < dim (in_features l))%nat ->
  in_range
    (if share_input l then batch ++ [dim (in_features l)]
     else dim (ensemble_size l) :: batch ++ [dim (in_features l)])
    ((if share_input l then [] else [e]) ++ bi ++ [j]) = true.
Proof.
  intros He Hbi Hj.
  assert (H : in_range (batch ++ [dim (in_features l)]) (bi ++ [j]) = true)
    by (apply in_range_app; [assumption | now apply in_range_one]).
  destruct (share_input l); simpl; [assumption|].
  apply Nat.ltb_lt in He. now rewrite He, H.
Qed.

End AffineFacts.

(** ** Sums, bounds and chains of layers *)

Module Affine.

Import Tensor Torch Layer Spec Derived Examples Cases.
Import TensorFacts TorchFacts ForwardFacts TensorEquality ForwardMore.
Import AffineFacts.
Local Open Scope R_scope.

(** X7. [forward] is affine in its input: on the sum of two inputs of the
    expected shape it returns, entry by entry, the sum of the two outputs
    less one copy of the bias. *)
Theorem transform_of_a_sum (l : EnsembleLinear) (g : generator)
  (x1 x2 : rtensor) (batch : list nat) :
  layer_inv l -> shape x2 = shape x1 ->
  shape x1 = (if share_input l then batch ++ [dim (in_features l)]
              else dim (ensemble_size l)
                     :: batch ++ [dim (in_features l)]) ->
  exists s y1 y2 y,
    add x1 x2 = Ok s /\
    fst (forward x1 (l, g)) = Ok y1 /\ fst (forward x2 (l, g)) = Ok y2 /\
    fst (forward s (l, g)) = Ok y /\
    forall e bi k,
      (e < dim (ensemble_size l))%nat -> in_range batch bi = true ->
      (k < dim (out_features l))%nat ->
      at_ y (e :: bi ++ [k])
      = at_ y1 (e :: bi ++ [k]) + at_ y2 (e :: bi ++ [k])
        - at_ (bias l) [k; e].
Proof.
  intros Hinv H21 Hx1.
  destruct (add_same_shape x1 x2 (eq_sym H21)) as (s & Hadd & Hs & _ & Hsat).
  destruct (forward_entries l g x1 batch Hinv Hx1)
    as (y1 & Hrun1 & _ & _ & Hat1).
  destruct (forward_entries l g x2 batch Hinv (eq_trans H21 Hx1))
    as (y2 & Hrun2 & _ & _ & Hat2).
  destruct (forward_entries l g s batch Hinv (eq_trans Hs Hx1))
    as (y & Hrun & _ & _ & Hat).
  exists s, y1, y2, y. rewrite Hrun1, Hrun2, Hrun.
  repeat (split; [first [assumption | reflexivity]|]).
  intros e bi k He Hbi Hk.
  rewrite Hat, Hat1, Hat2 by assumption.
  rewrite (rsum_ext _ _
    (fun j =>
       at_ x1 ((if share_input l then [] else [e]) ++ bi ++ [j])
       * at_ (weight l) [j; k; e]
       + at_ x2 ((if share_input l then [] else [e]) ++ bi ++ [j])
         * at_ (weight l) [j; k; e])).
  - rewrite rsum_plus. lra.
  - intros j Hj. rewrite Hsat; [lra|].
    rewrite Hx1. now apply in_range_input.
Qed.

Lemma transform_of_a_sum_witness :
  layer_inv (layer_3_1_2 true) /\
  exists s y1 y2 y,
    add x_1_3 x'_1_3 = Ok s /\
    fst (forward x_1_3 (layer_3_1_2 true, gen0)) = Ok y1 /\
    fst (forward x'_1_3 (layer_3_1_2 true, gen0)) = Ok y2 /\
    fst (forward s (layer_3_1_2 true, gen0)) = Ok y /\
    at_ y [1; 0; 0]%nat
    = at_ y1 [1; 0; 0]%nat + at_ y2 [1; 0; 0]%nat
      - at_ (bias (layer_3_1_2 true)) [0; 1]%nat.
Proof.
  assert (Hinv : layer_inv (layer_3_1_2 true))
    by (repeat split; simpl; lia).
  split; [exact Hinv|].
  destruct (transform_of_a_sum (layer_3_1_2 true) gen0 x_1_3 x'_1_3 [1%nat]
              Hinv eq_refl eq_refl)
    as (s & y1 & y2 & y & Hadd & H1 & H2 & H & Hat).
  exists s, y1, y2, y. repeat (split; [assumption|]).
  exact (Hat 1%nat [0%nat] 0%nat ltac:(simpl; lia) eq_refl ltac:(simpl; lia)).
Defined.

(** X8. The output is bounded by the parameters and the input: if every
    weight and every bias lies in [[-b, b]] and every input element in
    [[-m, m]], every output element lies within
    [in_features * (m * b) + b] of zero. *)
Theorem output_is_bounded (l : EnsembleLinear) (g : generator)
  (x : rtensor) (batch : list nat) (b m : R) :
  layer_inv l -> all_within b (weight l) -> all_within b (bias l) ->
  wf x -> all_within m x ->
  shape x = (if share_input l then batch ++ [dim (in_features l)]
             else dim (ensemble_size l)
                    :: batch ++ [dim (in_features l)]) ->
  exists y,
    fst (forward x (l, g)) = Ok y /\
    all_within (INR (dim (in_features l)) * (m * b) + b) y.
Proof.
  intros Hinv Hw Hb Hwfx Hx Hsh.
  destruct (forward_entries l g x batch Hinv Hsh)
    as (y & Hrun & Hy & Hwf & Hat).
  exists y. rewrite Hrun. split; [reflexivity|].
  apply all_within_intro; [assumption|].
  intros idx Hidx. rewrite Hy in Hidx.
  apply in_range_output in Hidx as (e & bi & k & -> & He & Hbi & Hk).
  rewrite Hat by assumption.
  destruct Hinv as (_ & _ & _ & Hwsh & Hwwf & Hbsh & Hbwf).
  assert (Hbias : Rabs (at_ (bias l) [k; e]) <= b).
  { apply (proj1 (within_abs _ _)). apply at_within; try assumption.
    rewrite Hbsh. now apply in_range_two. }
  assert (Hsum : Rabs (rsum (dim (in_features l)) (fun j =>
                   at_ x ((if share_input l then [] else [e]) ++ bi ++ [j])
                   * at_ (weight l) [j; k; e]))
                 <= INR (dim (in_features l)) * (m * b)).
  { apply rsum_abs_bound. intros j Hj. rewrite Rabs_mult.
    apply Rmult_le_compat; try apply Rabs_pos.
    - apply (proj1 (within_abs _ _)). apply at_within; try assumption.
      rewrite Hsh. now apply in_range_input.
    - apply (proj1 (within_abs _ _)). apply at_within; try assumption.
      rewrite Hwsh. simpl. apply Nat.ltb_lt in Hj, Hk, He.
      now rewrite Hj, Hk, He. }
  apply (proj2 (within_abs _ _)).
  eapply Rle_trans; [apply Rabs_triang|]. lra.
Qed.

Lemma output_is_bounded_witness :
  layer_inv (layer_3_1_2 true) /\
  all_within 1 (weight (layer_3_1_2 true)) /\
  all_within 1 (bias (layer_3_1_2 true)) /\ all_within 3 x_1_3 /\
  exists y,
    fst (forward x_1_3 (layer_3_1_2 true, gen0)) = Ok y /\
    all_within (INR 3 * (3 * 1) + 1) y.
Proof.
  assert (Hinv : layer_inv (layer_3_1_2 true))
    by (repeat split; simpl; lia).
  assert (Hw : all_within 1 (weight (layer_3_1_2 true)))
    by (repeat constructor; unfold within; lra).
  assert (Hb : all_within 1 (bias (layer_3_1_2 true)))
    by (repeat constructor; unfold within; lra).
  assert (Hx : all_within 3 x_1_3)
    by (repeat constructor; unfold within; lra).
  repeat (split; [assumption|]).
  exact (output_is_bounded (layer_3_1_2 true) gen0 x_1_3 [1%nat] 1 3
           Hinv Hw Hb eq_refl Hx eq_refl).
Defined.

(** X9. Layers chain member by member: when the output of one layer is
    fed to a layer with [share_input = false], the same [E] and
    [in_features] equal to the first layer's [out_features], slice [e] of
    the result is the composition of the two single-member linear layers
    of member [e], applied to what member [e] reads of the input. *)
Theorem layers_chain_per_member (l1 l2 : EnsembleLinear) (g : generator)
  (x : rtensor) (batch : list nat) (e : nat) :
  layer_inv l1 -> layer_inv l2 -> share_input l2 = false ->
  ensemble_size l2 = ensemble_size l1 ->
  in_features l2 = out_features l1 ->
  shape x = (if share_input l1 then batch ++ [dim (in_features l1)]
             else dim (ensemble_size l1)
                    :: batch ++ [dim (in_features l1)]) ->
  (e < dim (ensemble_size l1))%nat ->
  exists y1 y2,
    fst (forward x (l1, g)) = Ok y1 /\
    fst (forward y1 (l2, g)) = Ok y2 /\
    shape y2 = dim (ensemble_size l1) :: batch ++ [dim (out_features l2)] /\
    select_first 0 y2 e
    = single_linear
        (single_linear (if share_input l1 then x else select_first 0 x e)
           (select_last 0 (weight l1) e) (select_last 0 (bias l1) e))
        (select_last 0 (weight l2) e) (select_last 0 (bias l2) e).
Proof.
  intros Hinv1 Hinv2 Hshare2 HE Hin Hx He.
  destruct (forward_entries l1 g x batch Hinv1 Hx)
    as (y1 & Hrun1 & Hy1 & _ & Hat1).
  destruct (forward_member_exact l2 g y1 batch Hinv2 Hshare2)
    as (y2 & Hrun2 & Hy2 & _ & Hsl2).
  { now rewrite HE, Hin. }
  exists y1, y2. rewrite Hrun1, Hrun2.
  split; [reflexivity|]. split; [reflexivity|].
  split; [now rewrite Hy2, HE|].
  rewrite Hsl2 by (now rewrite HE). f_equal.
  destruct (share_input l1) eqn:Hshare1.
  - apply slice_single_linear with (batch := batch)
      (b := dim (ensemble_size l1)); try assumption.
    intros bi k Hbi Hk. now rewrite Hat1.
  - apply slice_single_linear with (batch := batch)
      (b := dim (ensemble_size l1)); try assumption.
    + unfold select_first. now rewrite Hx.
    + intros bi k Hbi Hk. rewrite Hat1 by assumption. f_equal.
      apply rsum_ext. intros j Hj. f_equal. simpl app.
      symmetry. apply at_select_first with (n := dim (ensemble_size l1))
        (rest := batch ++ [dim (in_features l1)]); [assumption|].
      apply in_range_app; [assumption | now apply in_range_one].
Qed.

Lemma layers_chain_per_member_witness :
  layer_inv (layer_3_1_2 true) /\ layer_inv layer_1_2_2 /\
  exists y1 y2,
    fst (forward x_1_3 (layer_3_1_2 true, gen0)) = Ok y1 /\
    fst (forward y1 (layer_1_2_2, gen0)) = Ok y2 /\
    shape y2 = [2; 1; 2]%nat.
Proof.
  assert (Hinv1 : layer_inv (layer_3_1_2 true))
    by (repeat split; simpl; lia).
  assert (Hinv2 : layer_inv layer_1_2_2)
    by (repeat split; simpl; lia).
  split; [exact Hinv1|]. split; [exact Hinv2|].
  destruct (layers_chain_per_member (layer_3_1_2 true) layer_1_2_2 gen0
              x_1_3 [1%nat] 0 Hinv1 Hinv2 eq_refl eq_refl eq_refl eq_refl
              ltac:(simpl; lia))
    as (y1 & y2 & H1 & H2 & Hy2 & _).
  exists y1, y2. repeat split; assumption.
Defined.

End Affine.

(** ** What [reset_parameters] draws and writes *)

Module ResetFacts.

Import Tensor Torch Layer Spec Derived.
Import TensorFacts TorchFacts InitFacts.
Local Open Scope R_scope.

Lemma uniform_symmetric (t : rtensor) (std : R) (g : generator) :
  0 <= std ->
  uniform_ t (- std) std g
  = (Ok (Tensor (shape t)
           (uniform_fill g (pos g) (numel (shape t)) std)),
     advance g (numel (shape t))).
Proof.
  intros Hstd. unfold uniform_, uniform_fill.
  destruct (Rlt_dec std (- std)) as [Hlt|_]; [lra|].
  f_equal. f_equal. f_equal. apply map_ext. intros p. ring.
Qed.

(** The layer and the generator [reset_parameters] leaves behind when
    [in_features] is positive. *)
Lemma reset_parameters_contents (l : EnsembleLinear) (g : generator) :
  (0 < in_features l)%Z ->
  reset_parameters (l, g)
  = (Ok tt,
     (mkEnsembleLinear (in_features l) (out_features l) (ensemble_size l)
        (share_input l) (add_bias l)
        (Tensor (shape (weight l))
           (uniform_fill g (pos g) (numel (shape (weight l)))
              (fan_in_bound l)))
        (if add_bias l then
           Tensor (shape (bias l))
             (uniform_fill g (pos g + numel (shape (weight l)))
                (numel (shape (bias l))) (fan_in_bound l))
         else bias l),
      advance g (numel (shape (weight l))
                 + (if add_bias l then numel (shape (bias l)) else 0)))).
Proof.
  intros Hin. pose proof (fan_in_positive _ Hin) as Hs.
  assert (Hfan : 1 / sqrt (IZR (in_features l)) = fan_in_bound l)
    by (unfold fan_in_bound, Rdiv; apply Rmult_1_l).
  assert (Hpos : 0 <= fan_in_bound l).
  { rewrite <- Hfan. apply Rlt_le. apply Rdiv_lt_0_compat; lra. }
  unfold reset_parameters, bind, this, lift, draw, update, ret; simpl.
  unfold math_sqrt. destruct (in_features l <? 0)%Z eqn:E;
    [apply Z.ltb_lt in E; lia|].
  unfold truediv. destruct (Req_dec_T (sqrt (IZR (in_features l))) 0);
    [lra|].
  rewrite Hfan, !uniform_symmetric by assumption.
  destruct (add_bias l) eqn:Eb; simpl.
  - rewrite uniform_symmetric by assumption. simpl.
    unfold set_bias, set_weight, advance, uniform_fill; simpl.
    rewrite Eb, Nat.add_assoc. reflexivity.
  - unfold set_weight, advance; simpl.
    rewrite Eb, Nat.add_0_r. reflexivity.
Qed.

(** Without a positive [in_features], [reset_parameters] raises before it
    draws or writes anything. *)
Lemma reset_parameters_raises (l : EnsembleLinear) (g : generator) :
  (in_features l <= 0)%Z ->
  reset_parameters (l, g)
  = (Raise (if (in_features l =? 0)%Z then ZeroDivisionError
            else ValueError), (l, g)).
Proof.
  intros Hin.
  unfold reset_parameters, bind, this, lift, math_sqrt; simpl.
  destruct (in_features l <? 0)%Z eqn:E.
  - apply Z.ltb_lt in E.
    destruct (in_features l =? 0)%Z eqn:E0; [apply Z.eqb_eq in E0; lia|].
    reflexivity.
  - apply Z.ltb_ge in E. assert (E0 : in_features l = 0%Z) by lia.
    rewrite E0. simpl. unfold truediv.
    destruct (Req_dec_T (sqrt 0) 0) as [_|Hne]; [reflexivity|].
    exfalso. apply Hne, sqrt_0.
Qed.

Lemma wf_uniform_fill (sh : list nat) (g : generator) (first : nat)
  (std : R) :
  wf (Tensor sh (uniform_fill g first (numel sh) std)).
Proof.
  unfold wf, uniform_fill; simpl. now rewrite length_map, length_seq.
Qed.

(** Whether it returns or raises, [reset_parameters] keeps the shape
    invariant and every field set by the constructor. *)
Lemma reset_parameters_keeps_inv (l : EnsembleLinear) (g : generator) :
  layer_inv l ->
  layer_inv (fst (snd (reset_parameters (l, g)))) /\
  in_features (fst (snd (reset_parameters (l, g)))) = in_features l /\
  out_features (fst (snd (reset_parameters (l, g)))) = out_features l /\
  ensemble_size (fst (snd (reset_parameters (l, g)))) = ensemble_size l /\
  share_input (fst (snd (reset_parameters (l, g)))) = share_input l /\
  add_bias (fst (snd (reset_parameters (l, g)))) = add_bias l.
Proof.
  intros Hinv.
  destruct (Z_lt_dec 0 (in_features l)) as [Hin|Hin].
  - rewrite (reset_parameters_contents l g Hin). simpl.
    split; [|now repeat split].
    destruct Hinv as (H1 & H2 & H3 & Hw & Hwwf & Hb & Hbwf).
    unfold layer_inv; simpl. repeat (split; [assumption|]).
    split; [apply wf_uniform_fill|].
    destruct (add_bias l); [|now split].
    simpl. split; [assumption | apply wf_uniform_fill].
  - rewrite (reset_parameters_raises l g) by lia. simpl.
    split; [assumption | now repeat split].
Qed.

End ResetFacts.

(** ** Construction, re-initialisation and sequences of calls *)

Module Lifecycle.

Import Tensor Torch Layer Spec Derived Examples Cases.
Import TensorFacts TorchFacts ForwardFacts InitFacts ResetFacts.
Local Open Scope R_scope.

(** X10. On a layer whose [in_features] is not positive,
    [reset_parameters] raises: [ZeroDivisionError] for 0 and [ValueError]
    for a negative value.  It raises before it draws or writes, so the
    layer and the generator are left as they were. *)
Theorem reset_needs_positive_fan_in (l : EnsembleLinear) (g : generator) :
  (in_features l <= 0)%Z ->
  reset_parameters (l, g)
  = (Raise (if (in_features l =? 0)%Z then ZeroDivisionError
            else ValueError), (l, g)).
Proof. apply reset_parameters_raises. Qed.

Lemma reset_needs_positive_fan_in_witness :
  reset_parameters (layer_0, gen0) = (Raise ZeroDivisionError, (layer_0, gen0)).
Proof.
  apply (reset_needs_positive_fan_in layer_0 gen0). simpl. lia.
Defined.

(** X11. [reset_parameters] gives every element its own draw: element [p]
    of [weight] is [(2u - 1) / sqrt(in_features)] for the draw [u] at
    position [p] after the generator's position, the elements of a
    trainable [bias] use the draws that follow those of [weight], and the
    generator advances by the number of elements written. *)
Theorem reset_draws_each_element (l : EnsembleLinear) (g : generator) :
  (0 < in_features l)%Z ->
  exists l' g',
    reset_parameters (l, g) = (Ok tt, (l', g')) /\
    data (weight l')
    = uniform_fill g (pos g) (numel (shape (weight l))) (fan_in_bound l) /\
    (add_bias l = true ->
     data (bias l')
     = uniform_fill g (pos g + numel (shape (weight l)))
         (numel (shape (bias l))) (fan_in_bound l)) /\
    pos g'
    = (pos g + (numel (shape (weight l))
                + (if add_bias l then numel (shape (bias l)) else 0)))%nat /\
    unit_draw g' = unit_draw g.
Proof.
  intros Hin. eexists. eexists.
  split; [apply (reset_parameters_contents l g Hin)|]. simpl.
  split; [reflexivity|]. split; [|now split].
  intros ->. reflexivity.
Qed.

Lemma reset_draws_each_element_witness :
  exists l' g',
    reset_parameters (layer_3_1_2 true, gen0) = (Ok tt, (l', g')) /\
    data (weight l') = uniform_fill gen0 0 6 (/ sqrt 3) /\
    data (bias l') = uniform_fill gen0 6 2 (/ sqrt 3) /\
    pos g' = 8%nat.
Proof.
  destruct (reset_draws_each_element (layer_3_1_2 true) gen0)
    as (l' & g' & Hrun & Hw & Hb & Hpos & _); [simpl; lia|].
  exists l', g'. split; [assumption|]. split; [exact Hw|].
  split; [exact (Hb eq_refl) | exact Hpos].
Defined.

(** X12. [reset_parameters] overwrites all it initialises: two layers that
    agree on [in_features], on the [bias] flag and on the shapes of their
    parameters hold the same [weight], and the same trainable [bias],
    after a reset from the same generator state, whatever they held
    before. *)
Theorem reset_forgets_old_parameters (l1 l2 : EnsembleLinear)
  (g : generator) :
  (0 < in_features l1)%Z -> in_features l2 = in_features l1 ->
  add_bias l2 = add_bias l1 ->
  shape (weight l2) = shape (weight l1) ->
  shape (bias l2) = shape (bias l1) ->
  exists l1' l2' g',
    reset_parameters (l1, g) = (Ok tt, (l1', g')) /\
    reset_parameters (l2, g) = (Ok tt, (l2', g')) /\
    weight l2' = weight l1' /\
    (add_bias l1 = true -> bias l2' = bias l1').
Proof.
  intros Hin Ein Eb Ew Ebs.
  assert (Hin2 : (0 < in_features l2)%Z) by (now rewrite Ein).
  rewrite (reset_parameters_contents l1 g Hin),
    (reset_parameters_contents l2 g Hin2).
  unfold fan_in_bound. rewrite Ein, Eb, Ew, Ebs.
  eexists. eexists. eexists.
  split; [reflexivity|]. split; [reflexivity|]. simpl.
  split; [reflexivity|]. intros ->. reflexivity.
Qed.

Lemma reset_forgets_old_parameters_witness :
  exists l1' l2' g',
    reset_parameters (layer_3_1_2 true, gen0) = (Ok tt, (l1', g')) /\
    reset_parameters
      (set_weight (full [3; 1; 2]%nat 9) (layer_3_1_2 true), gen0)
    = (Ok tt, (l2', g')) /\
    weight l2' = weight l1' /\ bias l2' = bias l1'.
Proof.
  destruct (reset_forgets_old_parameters (layer_3_1_2 true)
              (set_weight (full [3; 1; 2]%nat 9) (layer_3_1_2 true)) gen0)
    as (l1' & l2' & g' & H1 & H2 & Hw & Hb); try reflexivity.
  exists l1', l2', g'. repeat (split; [assumption|]). exact (Hb eq_refl).
Defined.

(** X13. No sequence of [reset_parameters] and [forward] calls, whether
    they return or raise, breaks the layout of the layer: [weight] keeps
    the shape [[in_features, out_features, E]], [bias] the shape
    [[out_features, E]], both stay well formed, and the five fields set by
    the constructor keep their values. *)
Theorem calls_keep_the_layout (cs : list call)
  (s : EnsembleLinear * generator) :
  layer_inv (fst s) ->
  layer_inv (fst (run_calls cs s)) /\
  in_features (fst (run_calls cs s)) = in_features (fst s) /\
  out_features (fst (run_calls cs s)) = out_features (fst s) /\
  ensemble_size (fst (run_calls cs s)) = ensemble_size (fst s) /\
  share_input (fst (run_calls cs s)) = share_input (fst s) /\
  add_bias (fst (run_calls cs s)) = add_bias (fst s).
Proof.
  revert s. induction cs as [|c cs IH]; intros [l g] Hinv; simpl in *.
  - split; [assumption | now repeat split].
  - assert (Hstep :
      layer_inv (fst (run_call c (l, g))) /\
      in_features (fst (run_call c (l, g))) = in_features l /\
      out_features (fst (run_call c (l, g))) = out_features l /\
      ensemble_size (fst (run_call c (l, g))) = ensemble_size l /\
      share_input (fst (run_call c (l, g))) = share_input l /\
      add_bias (fst (run_call c (l, g))) = add_bias l).
    { destruct c as [|x]; simpl.
      - now apply reset_parameters_keeps_inv.
      - rewrite forward_run. simpl.
        split; [assumption | now repeat split]. }
    destruct Hstep as (Hinv' & E1 & E2 & E3 & E4 & E5).
    destruct (IH _ Hinv') as (Hi & F1 & F2 & F3 & F4 & F5).
    split; [assumption|].
    rewrite F1, F2, F3, F4, F5. now repeat split.
Qed.

Lemma calls_keep_the_layout_witness :
  layer_inv (layer_3_1_2 true) /\
  layer_inv
    (fst (run_calls [Transform x_5; Reset; Transform x_1_3; Reset]
            (layer_3_1_2 true, gen0))) /\
  in_features
    (fst (run_calls [Transform x_5; Reset; Transform x_1_3; Reset]
            (layer_3_1_2 true, gen0))) = 3%Z.
Proof.
  assert (Hinv : layer_inv (layer_3_1_2 true))
    by (repeat split; simpl; lia).
  split; [exact Hinv|].
  destruct (calls_keep_the_layout
              [Transform x_5; Reset; Transform x_1_3; Reset]
              (layer_3_1_2 true, gen0) Hinv) as (H & E & _).
  split; [exact H | exact E].
Defined.

(** The layer and the generator that construction leaves behind. *)
Lemma init_contents (i o e : Z) (share b : bool) (g : generator) :
  (0 < i)%Z -> (0 <= o)%Z -> (0 <= e)%Z ->
  init (PyInt i) (PyInt o) (PyInt e) share b g
  = (Ok (mkEnsembleLinear i o e share b
           (Tensor [dim i; dim o; dim e]
              (uniform_fill g (pos g) (numel [dim i; dim o; dim e])
                 (/ sqrt (IZR i))))
           (if b then
              Tensor [dim o; dim e]
                (uniform_fill g (pos g + numel [dim i; dim o; dim e])
                   (numel [dim o; dim e]) (/ sqrt (IZR i)))
            else full [dim o; dim e] 0)),
     advance g (numel [dim i; dim o; dim e]
                + (if b then numel [dim o; dim e] else 0))).
Proof.
  intros Hi Ho He. unfold init, empty, zeros.
  change [PyInt i; PyInt o; PyInt e] with (map PyInt [i; o; e]).
  change [PyInt o; PyInt e] with (map PyInt [o; e]).
  rewrite !size_arg_ints by (repeat constructor; lia).
  rewrite if_const.
  rewrite reset_parameters_contents by exact Hi.
  reflexivity.
Qed.

Lemma small_fits_int64 (z : Z) :
  (- size_limit <= z < size_limit)%Z -> fits_int64 z = true.
Proof.
  unfold size_limit, fits_int64. intros Hz.
  apply andb_true_iff. split; [apply Z.leb_le | apply Z.ltb_lt]; lia.
Qed.

(** The outcome of construction on three sizes in range. *)
Lemma init_by_kind (i o e : pyobj) (share b : bool) (g : generator) :
  small_size i -> small_size o -> small_size e ->
  match construction_error i o e with
  | Some err => init i o e share b g = (Raise err, g)
  | None => exists l g', init i o e share b g = (Ok l, g')
  end.
Proof.
  intros Si So Se.
  destruct i as [zi|]; [|reflexivity].
  destruct o as [zo|]; [|reflexivity].
  destruct e as [ze|];
    [|unfold init, empty, zeros, size_arg; simpl; reflexivity].
  unfold construction_error. simpl in Si, So, Se.
  rewrite !small_fits_int64 by assumption. simpl negb. cbv iota.
  clear Si So Se.
  destruct ((zi <? 0) || (zo <? 0) || (ze <? 0))%Z eqn:Eneg.
  - unfold init, empty, zeros.
    change [PyInt zi; PyInt zo; PyInt ze] with (map PyInt [zi; zo; ze]).
    rewrite size_arg_negative; [reflexivity|].
    apply orb_true_iff in Eneg as [Eneg|Eneg];
      [apply orb_true_iff in Eneg as [Eneg|Eneg]|];
      apply Z.ltb_lt in Eneg.
    + now apply Exists_cons_hd.
    + apply Exists_cons_tl. now apply Exists_cons_hd.
    + do 2 apply Exists_cons_tl. now apply Exists_cons_hd.
  - apply orb_false_iff in Eneg as [Eneg Ee].
    apply orb_false_iff in Eneg as [Ei Eo].
    apply Z.ltb_ge in Ei, Eo, Ee.
    destruct (zi =? 0)%Z eqn:E0.
    + apply Z.eqb_eq in E0. subst zi.
      unfold init, empty, zeros.
      change [PyInt 0; PyInt zo; PyInt ze] with (map PyInt [0%Z; zo; ze]).
      change [PyInt zo; PyInt ze] with (map PyInt [zo; ze]).
      rewrite !size_arg_ints by (repeat constructor; lia).
      rewrite if_const.
      now rewrite reset_parameters_raises by (simpl; lia).
    + apply Z.eqb_neq in E0.
      rewrite init_contents by lia. eexists. eexists. reflexivity.
Qed.

(** X14. On sizes whose [int]s lie between [- size_limit] and
    [size_limit], construction raises by kind, and before any draw is
    taken: [TypeError] when one of the three sizes is not an [int],
    otherwise [RuntimeError] when one of them is negative, otherwise
    [ZeroDivisionError] when [in_features] is 0; on all other sizes in that
    range it returns a layer. *)
Theorem construction_raises_by_kind (i o e : pyobj) (share b : bool)
  (g : generator) :
  small_size i -> small_size o -> small_size e ->
  match construction_error i o e with
  | Some err => init i o e share b g = (Raise err, g)
  | None => exists l g', init i o e share b g = (Ok l, g')
  end.
Proof. apply init_by_kind. Qed.

Lemma construction_raises_by_kind_witness :
  init (PyInt 3) (PyFloat 1) (PyInt (-2)) true true gen0
  = (Raise TypeError, gen0) /\
  init (PyInt 0) (PyInt (-1)) (PyInt 2) true true gen0
  = (Raise RuntimeError, gen0) /\
  init (PyInt 0) (PyInt 1) (PyInt 2) true true gen0
  = (Raise ZeroDivisionError, gen0) /\
  (exists l g',
     init (PyInt 3) (PyInt 0) (PyInt 2) true true gen0 = (Ok l, g')).
Proof.
  assert (Hs : forall z, (- 3 <= z <= 3)%Z -> small_size (PyInt z)).
  { intros z Hz. unfold small_size, size_limit. lia. }
  split; [|split; [|split]].
  - apply (construction_raises_by_kind (PyInt 3) (PyFloat 1) (PyInt (-2))
             true true gen0); try exact I; apply Hs; lia.
  - apply (construction_raises_by_kind (PyInt 0) (PyInt (-1)) (PyInt 2)
             true true gen0); apply Hs; lia.
  - apply (construction_raises_by_kind (PyInt 0) (PyInt 1) (PyInt 2)
             true true gen0); apply Hs; lia.
  - apply (construction_raises_by_kind (PyInt 3) (PyInt 0) (PyInt 2)
             true true gen0); apply Hs; lia.
Defined.


(** X15. A constructed layer stores its five arguments, satisfies the
    shape invariant, and has taken one draw per element of [weight] and,
    with [bias = True], one per element of [bias]; with [bias = False] no
    draw is taken for the bias. *)
Theorem construction_stores_and_draws (i o e : Z) (share b : bool)
  (g : generator) :
  (0 < i)%Z -> (0 <= o)%Z -> (0 <= e)%Z ->
  exists l g',
    init (PyInt i) (PyInt o) (PyInt e) share b g = (Ok l, g') /\
    in_features l = i /\ out_features l = o /\ ensemble_size l = e /\
    share_input l = share /\ add_bias l = b /\
    layer_inv l /\
    pos g'
    = (pos g + (dim i * dim o * dim e
                + (if b then dim o * dim e else 0)))%nat /\
    unit_draw g' = unit_draw g.
Proof.
  intros Hi Ho He. rewrite init_contents by assumption.
  eexists. eexists. split; [reflexivity|]. simpl.
  repeat (split; [reflexivity|]).
  split; [|split; [|reflexivity]].
  - unfold layer_inv; simpl.
    repeat (split; [lia || reflexivity|]).
    split; [apply wf_uniform_fill|]. split; [now destruct b|].
    destruct b; [apply wf_uniform_fill | apply wf_full].
  - destruct b; lia.
Qed.

Lemma construction_stores_and_draws_witness :
  exists l g',
    init (PyInt 3) (PyInt 1) (PyInt 2) true false gen0 = (Ok l, g') /\
    layer_inv l /\ add_bias l = false /\ pos g' = 6%nat.
Proof.
  destruct (construction_stores_and_draws 3 1 2 true false gen0)
    as (l & g' & Hinit & _ & _ & _ & _ & Hb & Hinv & Hpos & _); try lia.
  exists l, g'. split; [assumption|]. split; [assumption|].
  split; assumption.
Defined.

End Lifecycle.

(** ** What [weight_init] keeps *)

Module WeightInitLayout.

Import Tensor Torch Layer Spec Derived.
Import TensorFacts TorchFacts WeightInitFacts.
Local Open Scope R_scope.

(** On a matrix, [orthogonal_] returns; it keeps the shape and the draws
    of the generator. *)
Lemma orthogonal_matrix_ok (t : rtensor) (gain : R) (g : generator)
  (n k : nat) :
  shape t = [n; k] -> wf t ->
  exists s g',
    orthogonal_ t gain g = (Ok s, g') /\ shape s = [n; k] /\ wf s /\
    unit_draw g' = unit_draw g /\ ortho_draw g' = ortho_draw g.
Proof.
  intros Ht Hwf. unfold orthogonal_. rewrite Ht.
  destruct (numel [n; k] =? 0).
  - exists t, g. now repeat split.
  - eexists. eexists. split; [reflexivity|]. split; [reflexivity|].
    split; [apply wf_tabulate|]. now split.
Qed.

Lemma init_members_layout (gain : R) (n k e : nat) (members : list nat) :
  forall (l : EnsembleLinear) (g : generator),
    shape (weight l) = [n; k; e] -> wf (weight l) ->
    exists l' g',
      init_members members gain (l, g) = (Ok tt, (l', g')) /\
      in_features l' = in_features l /\
      out_features l' = out_features l /\
      ensemble_size l' = ensemble_size l /\
      share_input l' = share_input l /\ add_bias l' = add_bias l /\
      bias l' = bias l /\ shape (weight l') = [n; k; e] /\
      wf (weight l') /\
      unit_draw g' = unit_draw g /\ ortho_draw g' = ortho_draw g.
Proof.
  induction members as [|i rest IH]; intros l g Hw Hwf.
  - exists l, g. simpl. unfold ret. now repeat split.
  - destruct (orthogonal_matrix_ok (select_last 0 (weight l) i) gain g n k)
      as (s & g1 & Hrun & _ & _ & Hu & Ho).
    { unfold select_last. now rewrite Hw. }
    { apply wf_tabulate. }
    destruct (IH (set_weight (set_last 0 (weight l) i s) l) g1)
      as (l' & g' & Hrest & E1 & E2 & E3 & E4 & E5 & E6 & E7 & E8 & Hu' & Ho').
    { simpl. unfold set_last. now rewrite Hw. }
    { simpl. apply wf_tabulate. }
    exists l', g'. split.
    { simpl. unfold bind, this, draw, update. simpl. rewrite Hrun. simpl.
      exact Hrest. }
    simpl in *. repeat (split; [assumption|]).
    split; congruence.
Qed.

(** [weight_init] on an ensemble layer returns; it keeps the shape
    invariant, the fields set by the constructor and the draws of the
    generator, and leaves a bias of zeros. *)
Lemma weight_init_ensemble_layout (l : EnsembleLinear) (g : generator)
  (gain : R) :
  layer_inv l ->
  exists l' g',
    weight_init gain (EnsembleModule l, g)
    = (Ok tt, (EnsembleModule l', g')) /\
    layer_inv l' /\
    in_features l' = in_features l /\ out_features l' = out_features l /\
    ensemble_size l' = ensemble_size l /\
    share_input l' = share_input l /\ add_bias l' = add_bias l /\
    bias l' = full [dim (out_features l); dim (ensemble_size l)] 0 /\
    unit_draw g' = unit_draw g /\ ortho_draw g' = ortho_draw g.
Proof.
  intros (H1 & H2 & H3 & Hw & Hwwf & Hb & Hbwf).
  destruct (init_members_layout gain _ _ _
              (seq 0 (Z.to_nat (ensemble_size l))) l g Hw Hwwf)
    as (l1 & g1 & Hrun & E1 & E2 & E3 & E4 & E5 & E6 & E7 & E8 & Hu & Ho).
  exists (set_bias (fill_ (bias l1) 0) l1), g1. split.
  { unfold weight_init, on_variant, init_ensemble, bind, this, update.
    simpl. rewrite Hrun. reflexivity. }
  simpl. split.
  - unfold layer_inv; simpl. rewrite E1, E2, E3, E6, Hb.
    repeat (split; [assumption|]). split; [reflexivity | apply wf_full].
  - repeat (split; [assumption|]).
    split; [|now split]. unfold fill_. now rewrite E6, Hb.
Qed.

(** The run of [weight_init] on an ensemble layer, with what it writes. *)
Lemma weight_init_ensemble_entries (l : EnsembleLinear) (g : generator)
  (gain : R) :
  layer_inv l -> ortho_draws g ->
  exists l' g',
    weight_init gain (EnsembleModule l, g)
    = (Ok tt, (EnsembleModule l', g')) /\
    layer_inv l' /\
    in_features l' = in_features l /\ out_features l' = out_features l /\
    ensemble_size l' = ensemble_size l /\
    share_input l' = share_input l /\
    bias l' = full [dim (out_features l); dim (ensemble_size l)] 0 /\
    forall i, (i < dim (ensemble_size l))%nat ->
      exists q,
        semi_orthogonal (dim (in_features l)) (dim (out_features l)) q /\
        forall j k,
          (j < dim (in_features l))%nat ->
          (k < dim (out_features l))%nat ->
          at_ (weight l') [j; k; i] = at_ q [j; k] * gain.
Proof.
  intros Hinv Hq.
  destruct (weight_init_ensemble_layout l g gain Hinv)
    as (l' & g' & Hrun & Hinv' & E1 & E2 & E3 & E4 & _ & Hb & _).
  exists l', g'. repeat (split; [assumption|]).
  destruct Hinv as (_ & _ & _ & Hw & _).
  destruct (init_members_ok gain _ _ _
              (seq 0 (Z.to_nat (ensemble_size l))) l g Hw)
    as (l1 & g1 & Hrun1 & _ & _ & _ & _ & _ & _ & _ & _ & Hnew).
  { apply seq_NoDup. }
  { intros i Hi. apply in_seq in Hi. unfold dim. lia. }
  { intros p. apply Hq. }
  assert (Hweight : weight l' = weight l1).
  { unfold weight_init, on_variant, init_ensemble, bind, this, update in Hrun.
    simpl in Hrun. rewrite Hrun1 in Hrun. simpl in Hrun.
    injection Hrun as <- _. reflexivity. }
  rewrite Hweight. intros i Hi. apply Hnew. apply in_seq.
  unfold dim in Hi. lia.
Qed.

(** *** Double sums *)

Lemma rsum_zero (n : nat) : rsum n (fun _ => 0) = 0.
Proof.
  unfold rsum. induction (seq 0 n) as [|j l IH]; simpl; [reflexivity|].
  rewrite IH. lra.
Qed.

Lemma rsum_swap (n m : nat) (F : nat -> nat -> R) :
  rsum n (fun j => rsum m (fun k => F j k))
  = rsum m (fun k => rsum n (fun j => F j k)).
Proof.
  unfold rsum at 1 4.
  induction (seq 0 n) as [|j l IH]; simpl.
  - symmetry. apply rsum_zero.
  - rewrite IH.
    rewrite <- (ForwardMore.rsum_plus m (fun k => F j k)
                  (fun k => fold_right (fun j0 acc => F j0 k + acc) 0 l)).
    reflexivity.
Qed.

Lemma rsum_mul_rsum (n m : nat) (f h : nat -> R) :
  rsum n f * rsum m h = rsum n (fun j => rsum m (fun j' => f j * h j')).
Proof.
  rewrite <- ForwardMore.rsum_scale. apply rsum_ext. intros j _.
  now rewrite ForwardMore.rsum_scale_l.
Qed.

(** A matrix with orthonormal rows keeps the sum of squares. *)
Lemma orthonormal_rows_keep_norm (q : rtensor) (n m : nat)
  (f : nat -> R) :
  (forall a b, (a < n)%nat -> (b < n)%nat ->
     rsum m (fun k => at_ q [a; k] * at_ q [b; k]) = delta a b) ->
  rsum m (fun k =>
    rsum n (fun j => f j * at_ q [j; k])
    * rsum n (fun j => f j * at_ q [j; k]))
  = rsum n (fun j => f j * f j).
Proof.
  intros Hq.
  rewrite (rsum_ext m _ (fun k =>
    rsum n (fun j => rsum n (fun j' =>
      (f j * f j') * (at_ q [j; k] * at_ q [j'; k])))))
    by (intros k _; rewrite rsum_mul_rsum; apply rsum_ext; intros j _;
        apply rsum_ext; intros j' _; ring).
  rewrite rsum_swap. apply rsum_ext. intros j Hj.
  rewrite rsum_swap.
  rewrite (rsum_ext n _ (fun j' => delta j j' * (f j * f j'))).
  - now rewrite rsum_delta.
  - intros j' Hj'. rewrite ForwardMore.rsum_scale_l.
    rewrite Hq by assumption. ring.
Qed.

End WeightInitLayout.

(** ** The transform of a layer initialised by [weight_init] *)

Module WeightInitForward.

Import Tensor Torch Layer Spec Derived.
Import TensorFacts TorchFacts ForwardMore AffineFacts LifecycleFacts.
Import WeightInitFacts WeightInitLayout.
Local Open Scope R_scope.

(** After [weight_init], [forward] returns, for every member, [gain] times
    the product of the input rows with the member's (semi-)orthogonal
    matrix: the bias contributes nothing. *)
Lemma forward_after_weight_init (l : EnsembleLinear) (g : generator)
  (gain : R) (x : rtensor) (batch : list nat) :
  layer_inv l -> ortho_draws g ->
  shape x = (if share_input l then batch ++ [dim (in_features l)]
             else dim (ensemble_size l)
                    :: batch ++ [dim (in_features l)]) ->
  exists l' g' y,
    weight_init gain (EnsembleModule l, g)
    = (Ok tt, (EnsembleModule l', g')) /\
    forward x (l', g') = (Ok y, (l', g')) /\
    shape y = dim (ensemble_size l) :: batch ++ [dim (out_features l)] /\
    forall e, (e < dim (ensemble_size l))%nat ->
      exists q,
        semi_orthogonal (dim (in_features l)) (dim (out_features l)) q /\
        forall bi k,
          in_range batch bi = true -> (k < dim (out_features l))%nat ->
          at_ y (e :: bi ++ [k])
          = gain * rsum (dim (in_features l)) (fun j =>
              at_ x ((if share_input l then [] else [e]) ++ bi ++ [j])
              * at_ q [j; k]).
Proof.
  intros Hinv Hq Hx.
  destruct (weight_init_ensemble_entries l g gain Hinv Hq)
    as (l' & g' & Hrun & Hinv' & E1 & E2 & E3 & E4 & Hb & Hw).
  destruct (forward_entries l' g' x batch Hinv') as (y & Hfw & Hy & _ & Hat).
  { now rewrite E1, E3, E4. }
  rewrite E1, E2, E3, E4 in *.
  exists l', g', y. repeat (split; [assumption|]).
  intros e He. destruct (Hw e He) as (q & Hsemi & Hwq).
  exists q. split; [assumption|].
  intros bi k Hbi Hk. rewrite Hat by assumption.
  rewrite Hb, at_zeros, Rplus_0_r, <- rsum_scale_l.
  apply rsum_ext. intros j Hj. rewrite Hwq by assumption. ring.
Qed.

End WeightInitForward.

(** ** The two initialisers *)

Module Initialisers.

Import Tensor Torch Layer Spec Derived Examples Cases.
Import TensorFacts TorchFacts ForwardMore AffineFacts InitFacts ResetFacts.
Import WeightInitFacts WeightInitLayout WeightInitForward.
Local Open Scope R_scope.

(** X16. On an [nn.Linear] module, [weight_init] overwrites the weight
    matrix with a (semi-)orthogonal matrix scaled by [gain], fills an
    existing bias with zeros, and leaves a missing bias missing. *)
Theorem weight_init_on_linear (m : Linear) (g : generator) (gain : R)
  (rows cols : nat) :
  shape (lin_weight m) = [rows; cols] -> ortho_draws g ->
  exists m' g' q,
    weight_init gain (LinearModule m, g)
    = (Ok tt, (LinearModule m', g')) /\
    semi_orthogonal rows cols q /\
    (forall j k, (j < rows)%nat -> (k < cols)%nat ->
       at_ (lin_weight m') [j; k] = at_ q [j; k] * gain) /\
    lin_bias m' = option_map (fun b => full (shape b) 0) (lin_bias m).
Proof. apply weight_init_linear. Qed.

Lemma weight_init_on_linear_witness :
  ortho_draws gen0 /\
  exists m' g' q,
    weight_init 1 (LinearModule linear_2_3, gen0)
    = (Ok tt, (LinearModule m', g')) /\
    semi_orthogonal 2 3 q /\
    lin_bias m' = Some (full [2]%nat 0).
Proof.
  split; [exact ortho_draws_gen0|].
  destruct (weight_init_on_linear linear_2_3 gen0 1 2 3 eq_refl
              ortho_draws_gen0) as (m' & g' & q & Hrun & Hq & _ & Hb).
  exists m', g', q. repeat split; try assumption; apply Hq.
Defined.

(** X17. After [weight_init], the layer transforms its input without a
    bias: for every member [e] there is a (semi-)orthogonal matrix [q]
    with [output[e, ..., k] = gain * sum_j input[..., j] * q[j, k]]. *)
Theorem transform_after_weight_init (l : EnsembleLinear) (g : generator)
  (gain : R) (x : rtensor) (batch : list nat) :
  layer_inv l -> ortho_draws g ->
  shape x = (if share_input l then batch ++ [dim (in_features l)]
             else dim (ensemble_size l)
                    :: batch ++ [dim (in_features l)]) ->
  exists l' g' y,
    weight_init gain (EnsembleModule l, g)
    = (Ok tt, (EnsembleModule l', g')) /\
    fst (forward x (l', g')) = Ok y /\
    shape y = dim (ensemble_size l) :: batch ++ [dim (out_features l)] /\
    forall e, (e < dim (ensemble_size l))%nat ->
      exists q,
        semi_orthogonal (dim (in_features l)) (dim (out_features l)) q /\
        forall bi k,
          in_range batch bi = true -> (k < dim (out_features l))%nat ->
          at_ y (e :: bi ++ [k])
          = gain * rsum (dim (in_features l)) (fun j =>
              at_ x ((if share_input l then [] else [e]) ++ bi ++ [j])
              * at_ q [j; k]).
Proof.
  intros Hinv Hq Hx.
  destruct (forward_after_weight_init l g gain x batch Hinv Hq Hx)
    as (l' & g' & y & Hrun & Hfw & Hy & Hat).
  exists l', g', y. rewrite Hfw. now repeat split.
Qed.

Lemma transform_after_weight_init_witness :
  layer_inv (layer_3_1_2 true) /\ ortho_draws gen0 /\
  exists l' g' y,
    weight_init 2 (EnsembleModule (layer_3_1_2 true), gen0)
    = (Ok tt, (EnsembleModule l', g')) /\
    fst (forward x_1_3 (l', g')) = Ok y /\
    shape y = [2; 1; 1]%nat.
Proof.
  assert (Hinv : layer_inv (layer_3_1_2 true))
    by (repeat split; simpl; lia).
  split; [exact Hinv|]. split; [exact ortho_draws_gen0|].
  destruct (transform_after_weight_init (layer_3_1_2 true) gen0 2 x_1_3
              [1%nat] Hinv ortho_draws_gen0 eq_refl)
    as (l' & g' & y & Hrun & Hfw & Hy & _).
  exists l', g', y. repeat split; assumption.
Defined.

(** X18. When [in_features < out_features], a layer initialised by
    [weight_init] scales lengths by [gain]: for every member and every
    input row, the sum of the squares of the outputs is [gain^2] times the
    sum of the squares of the inputs. *)
Theorem weight_init_scales_lengths (l : EnsembleLinear) (g : generator)
  (gain : R) (x : rtensor) (batch : list nat) :
  layer_inv l -> ortho_draws g ->
  (dim (in_features l) < dim (out_features l))%nat ->
  shape x = (if share_input l then batch ++ [dim (in_features l)]
             else dim (ensemble_size l)
                    :: batch ++ [dim (in_features l)]) ->
  exists l' g' y,
    weight_init gain (EnsembleModule l, g)
    = (Ok tt, (EnsembleModule l', g')) /\
    fst (forward x (l', g')) = Ok y /\
    forall e bi,
      (e < dim (ensemble_size l))%nat -> in_range batch bi = true ->
      rsum (dim (out_features l)) (fun k =>
        at_ y (e :: bi ++ [k]) * at_ y (e :: bi ++ [k]))
      = gain * gain
        * rsum (dim (in_features l)) (fun j =>
            at_ x ((if share_input l then [] else [e]) ++ bi ++ [j])
            * at_ x ((if share_input l then [] else [e]) ++ bi ++ [j])).
Proof.
  intros Hinv Hq Hlt Hx.
  destruct (forward_after_weight_init l g gain x batch Hinv Hq Hx)
    as (l' & g' & y & Hrun & Hfw & Hy & Hat).
  exists l', g', y. rewrite Hfw. split; [assumption|].
  split; [reflexivity|].
  intros e bi He Hbi. destruct (Hat e He) as (q & (_ & _ & Hrows) & Hyq).
  apply Nat.ltb_lt in Hlt. rewrite Hlt in Hrows.
  rewrite <- (orthonormal_rows_keep_norm q _ (dim (out_features l)) _ Hrows).
  rewrite <- rsum_scale_l. apply rsum_ext. intros k Hk.
  rewrite Hyq by assumption. ring.
Qed.

Lemma weight_init_scales_lengths_witness :
  layer_inv layer_2_3_1 /\ ortho_draws gen0 /\
  exists l' g' y,
    weight_init 2 (EnsembleModule layer_2_3_1, gen0)
    = (Ok tt, (EnsembleModule l', g')) /\
    fst (forward (Tensor [2]%nat [3; 4]) (l', g')) = Ok y /\
    rsum 3 (fun k => at_ y [0%nat; k] * at_ y [0%nat; k])
    = 2 * 2 * rsum 2 (fun j => at_ (Tensor [2]%nat [3; 4]) [j]
                               * at_ (Tensor [2]%nat [3; 4]) [j]).
Proof.
  assert (Hinv : layer_inv layer_2_3_1)
    by (repeat split; simpl; lia).
  split; [exact Hinv|]. split; [exact ortho_draws_gen0|].
  destruct (weight_init_scales_lengths layer_2_3_1 gen0 2
              (Tensor [2]%nat [3; 4]) [] Hinv ortho_draws_gen0
              ltac:(simpl; lia) eq_refl)
    as (l' & g' & y & Hrun & Hfw & Hnorm).
  exists l', g', y. split; [assumption|]. split; [assumption|].
  exact (Hnorm 0%nat [] ltac:(simpl; lia) eq_refl).
Defined.

(** X19. [weight_init] never raises on a well-formed ensemble layer; it
    keeps the shape invariant and the five fields set by the constructor,
    and a bias that holds zeros, as the buffer of a layer built with
    [bias = False] does, is left exactly as it is. *)
Theorem weight_init_keeps_the_layout (l : EnsembleLinear) (g : generator)
  (gain : R) :
  layer_inv l ->
  exists l' g',
    weight_init gain (EnsembleModule l, g)
    = (Ok tt, (EnsembleModule l', g')) /\
    layer_inv l' /\
    in_features l' = in_features l /\ out_features l' = out_features l /\
    ensemble_size l' = ensemble_size l /\
    share_input l' = share_input l /\ add_bias l' = add_bias l /\
    (bias l = full [dim (out_features l); dim (ensemble_size l)] 0 ->
     bias l' = bias l).
Proof.
  intros Hinv.
  destruct (weight_init_ensemble_layout l g gain Hinv)
    as (l' & g' & Hrun & Hinv' & E1 & E2 & E3 & E4 & E5 & Hb & _).
  exists l', g'. repeat (split; [assumption|]).
  intros Hzero. now rewrite Hb, Hzero.
Qed.

Lemma weight_init_keeps_the_layout_witness :
  layer_inv (layer_3_1_2_nobias true) /\
  exists l' g',
    weight_init 1 (EnsembleModule (layer_3_1_2_nobias true), gen0)
    = (Ok tt, (EnsembleModule l', g')) /\
    layer_inv l' /\ add_bias l' = false /\
    bias l' = bias (layer_3_1_2_nobias true).
Proof.
  assert (Hinv : layer_inv (layer_3_1_2_nobias true))
    by (repeat split; simpl; lia).
  split; [exact Hinv|].
  destruct (weight_init_keeps_the_layout (layer_3_1_2_nobias true) gen0 1
              Hinv)
    as (l' & g' & Hrun & Hinv' & _ & _ & _ & _ & Hb & Hz).
  exists l', g'. split; [assumption|]. split; [assumption|].
  split; [assumption|]. exact (Hz eq_refl).
Defined.

(** X20. The last initialiser wins: [reset_parameters] after
    [weight_init] brings the parameters back into
    [[-1/sqrt(in_features), 1/sqrt(in_features)]], and writes the very
    [weight], and trainable [bias], it would have written on the layer
    that [weight_init] never touched. *)
Theorem reset_after_weight_init (l : EnsembleLinear) (g : generator)
  (gain : R) :
  layer_inv l -> (0 < in_features l)%Z -> unit_draws g ->
  exists l1 g1 l2 l2' g2,
    weight_init gain (EnsembleModule l, g)
    = (Ok tt, (EnsembleModule l1, g1)) /\
    reset_parameters (l1, g1) = (Ok tt, (l2, g2)) /\
    reset_parameters (l, g1) = (Ok tt, (l2', g2)) /\
    bounded l2 /\ weight l2 = weight l2' /\
    (add_bias l = true -> bias l2 = bias l2').
Proof.
  intros Hinv Hin Hu.
  destruct (weight_init_ensemble_layout l g gain Hinv)
    as (l1 & g1 & Hrun & Hinv1 & E1 & E2 & E3 & E4 & E5 & Hb & Hu1 & _).
  assert (Hin1 : (0 < in_features l1)%Z) by (now rewrite E1).
  assert (Hug1 : unit_draws g1) by (intros p; rewrite Hu1; apply Hu).
  destruct (reset_parameters_ok l1 g1 Hin1)
    as (l2 & g2 & Hreset & _ & _ & _ & Hbd).
  pose proof (reset_parameters_contents l1 g1 Hin1) as Hc1.
  pose proof (reset_parameters_contents l g1 Hin) as Hc.
  destruct Hinv as (_ & _ & _ & Hw & _ & Hbs & _).
  destruct Hinv1 as (_ & _ & _ & Hw1 & _ & Hbs1 & _).
  unfold fan_in_bound in Hc1. rewrite Hw1, Hbs1, E1, E2, E3, E5 in Hc1.
  unfold fan_in_bound in Hc. rewrite Hw, Hbs in Hc.
  rewrite Hc1 in Hreset. injection Hreset as <- <-.
  eexists l1, g1, _, _, _.
  split; [exact Hrun|]. split; [exact Hc1|]. split; [exact Hc|].
  split; [|split].
  - rewrite E4 in Hc1. apply Hbd. exact Hug1.
  - reflexivity.
  - simpl. intros ->. reflexivity.
Qed.

Lemma reset_after_weight_init_witness :
  layer_inv (layer_3_1_2 true) /\ unit_draws gen0 /\
  exists l1 g1 l2 g2,
    weight_init 1 (EnsembleModule (layer_3_1_2 true), gen0)
    = (Ok tt, (EnsembleModule l1, g1)) /\
    reset_parameters (l1, g1) = (Ok tt, (l2, g2)) /\
    bounded l2.
Proof.
  assert (Hinv : layer_inv (layer_3_1_2 true))
    by (repeat split; simpl; lia).
  assert (Hu : unit_draws gen0) by (intros p; simpl; lra).
  split; [exact Hinv|]. split; [exact Hu|].
  destruct (reset_after_weight_init (layer_3_1_2 true) gen0 1 Hinv
              ltac:(simpl; lia) Hu)
    as (l1 & g1 & l2 & l2' & g2 & Hrun & Hreset & _ & Hbd & _).
  exists l1, g1, l2, g2. repeat split; try assumption; apply Hbd.
Defined.

End Initialisers.

(** ** Blocks of modules *)

Module BlockFacts.

Import Tensor Torch Layer Spec Blocks.
Local Open Scope R_scope.

Section Run.

Variable linear : Type.
Variable activation_module : Type.
Variable called : Type.
Variable norm_value : Type.

(** [miniblock] builds the linear layer first, then the modules of the
    three optional arguments, and stops at the first exception. *)
Lemma miniblock_run (i o : pyobj)
  (norm : option (norm_arg called norm_value))
  (act : option (result activation_module)) (drop : option R)
  (lin : pyobj -> pyobj -> generator -> result linear * generator)
  (g : generator) :
  miniblock i o norm act drop lin g
  = match lin i o g with
    | (Ok first, g') =>
        (match @norm_modules linear activation_module called norm_value
                 o norm with
         | Ok n =>
             match @activation_modules linear activation_module called
                     act with
             | Ok a =>
                 match @dropout_modules linear activation_module called
                         drop with
                 | Ok d => Ok (LinearLayer first :: n ++ a ++ d)
                 | Raise e => Raise e
                 end
             | Raise e => Raise e
             end
         | Raise e => Raise e
         end, g')
    | (Raise e, g') => (Raise e, g')
    end.
Proof.
  unfold miniblock, bind, draw, append, update, lift, ret, this.
  unfold norm_modules, activation_modules, dropout_modules. simpl.
  destruct (lin i o g) as [[first|e] g']; [|reflexivity]. simpl.
  destruct norm as [[call|c]|]; simpl.
  - destruct (call o) as [v|e]; [|reflexivity]. simpl.
    destruct act as [[a|e]|]; simpl; try reflexivity;
      (destruct drop as [p|]; [|reflexivity]);
      (destruct (Rlt_dec 0 p); [|reflexivity]);
      destruct (dropout_module p); reflexivity.
  - destruct (layer_norm o) as [n|e]; [|reflexivity]. simpl.
    destruct act as [[a|e]|]; simpl; try reflexivity;
      (destruct drop as [p|]; [|reflexivity]);
      (destruct (Rlt_dec 0 p); [|reflexivity]);
      destruct (dropout_module p); reflexivity.
  - destruct act as [[a|e]|]; simpl; try reflexivity;
      (destruct drop as [p|]; [|reflexivity]);
      (destruct (Rlt_dec 0 p); [|reflexivity]);
      destruct (dropout_module p); reflexivity.
Qed.

End Run.

Lemma layer_norm_int (z : Z) :
  (0 <= z)%Z ->
  layer_norm (PyInt z)
  = Ok (mkLayerNorm (dim z) (full [dim z] 1) (full [dim z] 0)).
Proof.
  intros Hz. unfold layer_norm, empty, zeros, size_arg. simpl.
  destruct (z <? 0)%Z eqn:E; [apply Z.ltb_lt in E; lia|]. reflexivity.
Qed.

Lemma dropout_module_ok (p : R) :
  0 <= p <= 1 -> dropout_module p = Ok p.
Proof.
  intros [H0 H1]. unfold dropout_module.
  destruct (Rlt_dec p 0); [lra|]. destruct (Rlt_dec 1 p); [lra|].
  reflexivity.
Qed.

End BlockFacts.

(** ** What [miniblock] returns *)

Module Block.

Import Tensor Torch Layer Spec Derived Examples Cases Blocks.
Import InitFacts BlockFacts.
Local Open Scope R_scope.

Section Miniblock.

Variable linear : Type.
Variable activation_module : Type.
Variable called : Type.
Variable norm_value : Type.

(** X21. A [norm_layer] that is not a module instance only switches the
    normalisation on: whatever is passed (a class, [True]), the block is
    the same, and the module built is [nn.LayerNorm(output_dim)], with a
    weight of ones and a bias of zeros of size [output_dim], placed right
    after the linear layer. *)
Theorem miniblock_builds_layer_norm (c1 c2 : norm_value) (i : pyobj)
  (z : Z) (act : option (result activation_module)) (drop : option R)
  (lin : pyobj -> pyobj -> generator -> result linear * generator)
  (g g' : generator) (first : linear) :
  (0 <= z)%Z -> lin i (PyInt z) g = (Ok first, g') ->
  @miniblock linear activation_module called norm_value
    i (PyInt z) (Some (NormOther c1)) act drop lin g
  = @miniblock linear activation_module called norm_value
      i (PyInt z) (Some (NormOther c2)) act drop lin g /\
  @miniblock linear activation_module called norm_value
    i (PyInt z) (Some (NormOther c1)) None None lin g
  = (Ok [LinearLayer first;
         Norm (mkLayerNorm (dim z) (full [dim z] 1) (full [dim z] 0))],
     g').
Proof.
  intros Hz Hlin. rewrite !miniblock_run, Hlin.
  unfold norm_modules. rewrite layer_norm_int by assumption.
  split; reflexivity.
Qed.

(** X22. A dropout rate that is not positive is the same as no rate at
    all: no dropout module is built and no exception is raised, whatever
    the other arguments are. *)
Theorem nonpositive_dropout_is_no_dropout (p : R) (i o : pyobj)
  (norm : option (norm_arg called norm_value))
  (act : option (result activation_module))
  (lin : pyobj -> pyobj -> generator -> result linear * generator)
  (g : generator) :
  p <= 0 ->
  @miniblock linear activation_module called norm_value
    i o norm act (Some p) lin g
  = @miniblock linear activation_module called norm_value
      i o norm act None lin g.
Proof.
  intros Hp. rewrite !miniblock_run.
  unfold dropout_modules. destruct (Rlt_dec 0 p); [lra|]. reflexivity.
Qed.

(** X23. A positive dropout rate gives the last module of the block when
    it is at most 1; above 1, [miniblock] raises [ValueError] after the
    linear layer has been built, so the draws of its construction are
    spent and no block is returned. *)
Theorem positive_dropout_is_last_or_raises (p : R) (i o : pyobj)
  (norm : option (norm_arg called norm_value))
  (act : option (result activation_module))
  (lin : pyobj -> pyobj -> generator -> result linear * generator)
  (g g' : generator) (first : linear)
  (n a : list (block_module linear activation_module called)) :
  0 < p -> lin i o g = (Ok first, g') ->
  @norm_modules linear activation_module called norm_value o norm = Ok n ->
  @activation_modules linear activation_module called act = Ok a ->
  @miniblock linear activation_module called norm_value
    i o norm act (Some p) lin g
  = (if Rlt_dec 1 p then Raise ValueError
     else Ok (LinearLayer first :: n ++ a ++ [Dropout p]), g').
Proof.
  intros Hp Hlin Hn Ha.
  rewrite miniblock_run, Hlin, Hn, Ha.
  unfold dropout_modules, dropout_module.
  destruct (Rlt_dec 0 p); [|lra]. destruct (Rlt_dec p 0); [lra|].
  now destruct (Rlt_dec 1 p).
Qed.

End Miniblock.

Lemma miniblock_builds_layer_norm_witness :
  exists first g',
    ensemble_linear_layer (PyInt 2) true true (PyInt 3) (PyInt 1) gen0
    = (Ok first, g') /\
    @miniblock EnsembleLinear unit unit bool (PyInt 3) (PyInt 1)
      (Some (NormOther true)) None None
      (ensemble_linear_layer (PyInt 2) true true) gen0
    = (Ok [LinearLayer first;
           Norm (mkLayerNorm 1 (full [1%nat] 1) (full [1%nat] 0))], g').
Proof.
  destruct (init_ok 3 1 2 true true gen0) as (l & g' & Hinit & _); try lia.
  exists l, g'. split; [exact Hinit|].
  apply (miniblock_builds_layer_norm EnsembleLinear unit unit bool true
           false (PyInt 3) 1 None None
           (ensemble_linear_layer (PyInt 2) true true) gen0 g' l);
    [lia | exact Hinit].
Defined.

Lemma nonpositive_dropout_is_no_dropout_witness :
  @miniblock EnsembleLinear unit unit bool (PyInt 3) (PyInt 1)
    None (Some (Ok tt)) (Some (-1))
    (ensemble_linear_layer (PyInt 2) true true) gen0
  = @miniblock EnsembleLinear unit unit bool (PyInt 3) (PyInt 1)
      None (Some (Ok tt)) None
      (ensemble_linear_layer (PyInt 2) true true) gen0.
Proof.
  apply (nonpositive_dropout_is_no_dropout EnsembleLinear unit unit bool
           (-1)). lra.
Defined.

Lemma positive_dropout_is_last_or_raises_witness :
  exists first g',
    ensemble_linear_layer (PyInt 2) true true (PyInt 3) (PyInt 1) gen0
    = (Ok first, g') /\
    @miniblock EnsembleLinear unit unit bool (PyInt 3) (PyInt 1)
      None (Some (Ok tt)) (Some 2)
      (ensemble_linear_layer (PyInt 2) true true) gen0
    = (if Rlt_dec 1 2 then Raise ValueError
       else Ok (LinearLayer first :: [] ++ [Activation tt] ++ [Dropout 2]),
       g').
Proof.
  destruct (init_ok 3 1 2 true true gen0) as (l & g' & Hinit & _); try lia.
  exists l, g'. split; [exact Hinit|].
  apply (positive_dropout_is_last_or_raises EnsembleLinear unit unit bool 2
           (PyInt 3) (PyInt 1) None (Some (Ok tt))
           (ensemble_linear_layer (PyInt 2) true true) gen0 g' l
           [] [Activation tt]);
    [lra | exact Hinit | reflexivity | reflexivity].
Defined.

(** X25. With [EnsembleLinear] as the linear layer, a positive
    [input_dim], any non-negative [output_dim] (0, the default, included),
    a normalisation, an activation and a dropout rate in [(0, 1]],
    [miniblock] returns exactly four modules in the order linear layer,
    layer norm, activation, dropout; the layer satisfies the shape
    invariant and holds fan-in-bounded parameters, and the layer norm has
    the size of the layer's [out_features]. *)
Theorem ensemble_block (activation_module called norm_value : Type)
  (c : norm_value) (a : activation_module) (p : R) (i o e : Z)
  (share b : bool) (g : generator) :
  (0 < i)%Z -> (0 <= o)%Z -> (0 <= e)%Z -> 0 < p <= 1 ->
  exists l g',
    @miniblock EnsembleLinear activation_module called norm_value
      (PyInt i) (PyInt o) (Some (NormOther c)) (Some (Ok a)) (Some p)
      (ensemble_linear_layer (PyInt e) share b) g
    = (Ok [LinearLayer l;
           Norm (mkLayerNorm (dim (out_features l))
                   (full [dim (out_features l)] 1)
                   (full [dim (out_features l)] 0));
           Activation a; Dropout p], g') /\
    layer_inv l /\ in_features l = i /\ out_features l = o /\
    ensemble_size l = e /\ share_input l = share /\ add_bias l = b /\
    (unit_draws g -> bounded l).
Proof.
  intros Hi Ho He [Hp0 Hp1].
  destruct (init_ok i o e share b g Hi Ho He)
    as (l & g' & Hinit & E1 & E2 & E3 & E4 & E5 & Hinv & _ & Hbd).
  exists l, g'. split.
  - rewrite miniblock_run. unfold ensemble_linear_layer. rewrite Hinit.
    unfold norm_modules, activation_modules, dropout_modules.
    rewrite layer_norm_int by assumption.
    destruct (Rlt_dec 0 p); [|lra].
    rewrite dropout_module_ok by lra. now rewrite E2.
  - now repeat (split; [assumption|]).
Qed.

Lemma ensemble_block_witness :
  exists l g',
    @miniblock EnsembleLinear unit unit bool
      (PyInt 3) (PyInt 0) (Some (NormOther true)) (Some (Ok tt))
      (Some (1 / 2)) (ensemble_linear_layer (PyInt 2) true true) gen0
    = (Ok [LinearLayer l;
           Norm (mkLayerNorm (dim (out_features l))
                   (full [dim (out_features l)] 1)
                   (full [dim (out_features l)] 0));
           Activation tt; Dropout (1 / 2)], g') /\
    layer_inv l /\ out_features l = 0%Z.
Proof.
  destruct (ensemble_block unit unit bool true tt (1 / 2) 3 0 2 true true
              gen0)
    as (l & g' & Hrun & Hinv & _ & Eo & _); try lia; [lra|].
  exists l, g'. split; [assumption|]. split; assumption.
Defined.

End Block.

(** ** The textual representation *)

Module ReprFacts.

Import Layer Repr.
Import String Ascii.
Local Open Scope string_scope.

Lemma append_cancel_l (p a b : string) : p ++ a = p ++ b -> a = b.
Proof.
  induction p as [|c p IH]; simpl; [trivial|].
  intros [= H]. now apply IH.
Qed.

Lemma comma_free_uint (d : Decimal.uint) :
  comma_free (DecimalString.NilEmpty.string_of_uint d).
Proof.
  induction d; simpl; try exact I; (split; [discriminate | assumption]).
Qed.

Lemma comma_free_str_int (z : Z) : comma_free (str_int z).
Proof.
  unfold str_int, DecimalString.NilZero.string_of_int,
    DecimalString.NilZero.string_of_uint.
  destruct (Z.to_int z) as [d|d].
  - destruct d; try apply comma_free_uint. simpl. split; [discriminate|exact I].
  - split; [discriminate|].
    destruct d; try apply comma_free_uint. simpl. split; [discriminate|exact I].
Qed.

(** Two strings that agree and start with comma-free parts agree on these
    parts and on what follows the first comma. *)
Lemma split_at_comma (s1 s2 t1 t2 : string) :
  comma_free s1 -> comma_free s2 ->
  s1 ++ String "," t1 = s2 ++ String "," t2 -> s1 = s2 /\ t1 = t2.
Proof.
  revert s2. induction s1 as [|c s1 IH]; intros [|c2 s2]; simpl.
  - intros _ _ [= ->]. now split.
  - intros _ [Hc _] [= <- _]. now contradiction Hc.
  - intros [Hc _] _ [= -> _]. now contradiction Hc.
  - intros [_ H1] [_ H2] [= -> H]. destruct (IH _ H1 H2 H) as [-> ->].
    now split.
Qed.

Lemma to_int_proper (z : Z) :
  Z.to_int z <> Decimal.Pos Decimal.Nil /\
  Z.to_int z <> Decimal.Neg Decimal.Nil.
Proof.
  destruct z as [|p|p]; simpl; split; try discriminate;
    intros [= H]; now apply DecimalPos.Unsigned.to_uint_nonnil in H.
Qed.

Lemma str_int_inj (z1 z2 : Z) : str_int z1 = str_int z2 -> z1 = z2.
Proof.
  unfold str_int. intros H.
  apply DecimalZ.to_int_inj.
  apply (f_equal DecimalString.NilZero.int_of_string) in H.
  destruct (to_int_proper z1) as [H1 H1'].
  destruct (to_int_proper z2) as [H2 H2'].
  rewrite !DecimalString.NilZero.isi in H by assumption.
  now injection H.
Qed.

End ReprFacts.

Module Representation.

Import Layer Repr ReprFacts.
Import String Ascii.
Local Open Scope string_scope.

(** X26. The representation shows [in_features], [out_features] and the
    [bias] flag and nothing else: two layers have the same representation
    exactly when they agree on these three, so it tells apart neither
    ensemble sizes nor sharing modes nor parameter values. *)
Theorem repr_shows_three_fields (l1 l2 : EnsembleLinear) :
  repr l1 = repr l2 <->
  in_features l1 = in_features l2 /\ out_features l1 = out_features l2 /\
  add_bias l1 = add_bias l2.
Proof.
  unfold repr. split.
  - intros H. apply append_cancel_l in H.
    apply split_at_comma in H as [Hin H]; try apply comma_free_str_int.
    apply (append_cancel_l " out_features=") in H.
    apply split_at_comma in H as [Hout H]; try apply comma_free_str_int.
    apply str_int_inj in Hin, Hout.
    repeat split; try assumption.
    destruct (add_bias l1), (add_bias l2); try reflexivity; discriminate.
  - intros (-> & -> & ->). reflexivity.
Qed.

Lemma repr_shows_three_fields_witness :
  share_input (Examples.layer_3_1_2 true)
  <> share_input (Examples.layer_3_1_2 false) /\
  repr (Examples.layer_3_1_2 true) = repr (Examples.layer_3_1_2 false).
Proof.
  split; [discriminate|].
  apply (proj2 (repr_shows_three_fields (Examples.layer_3_1_2 true)
                  (Examples.layer_3_1_2 false))).
  repeat split.
Defined.

Example repr_3_1_2 :
  repr (Examples.layer_3_1_2 true)
  = "EnsembleLinear(in_features=3, out_features=1, bias=True)".
Proof. reflexivity. Qed.

End Representation.
